(** * beats19182: the tag renamer and the upload client

    A shallow embedding of [scripts/rename_with_proper_tags.py], of
    [scripts/upload_to_service.py] and of the text cleaning of
    [scripts/extract_tags_from_offtop.py], and the properties of the tag
    pipeline: filename normalisation, tag matching, filename composition, the
    copy into the destination directory, authentication fallback, the saved
    session and batch accounting.

    Conventions of the embedding.
    - A Python [str] is a list of characters; a character is a code point in
      U+0000..U+00FF (the type [ascii] read as Latin-1), on which [str.lower],
      [str.isspace] and the classes [\d] and [\s] of [re] are the functions
      of the module [Py].  Literals are written [str "..."] and are ASCII.
    - A regular expression is a value of [Re.regex]; [re.sub] and
      [re.findall] are built on a backtracking matcher that lists the matches
      in the order Python tries them.
    - A [dict] is an association list in insertion order without repeated
      keys ([Dict]).
    - Code that can raise is a computation of the monad [Exc.M] over a world
      (the file system for the renamer, the session and the service for the
      upload client); [try: ... except Exception] is [Exc.try_except].
    - [os.path] is posixpath.  Which file a path names is for the file system
      to say ([Rename.place]): two spellings can name one file. *)

From Stdlib Require Import List Ascii String NArith ZArith Lia Bool.
From stdpp Require Import gmap strings list.
Import ListNotations.

Set Default Proof Using "Type".
Local Open Scope list_scope.

(** ** Python strings *)

Abbreviation pystr := (list ascii).

Definition str (s : string) : pystr := list_ascii_of_string s.

Module Py.

Definition code (c : ascii) : N := N_of_ascii c.

(** [\d] and [str.isdecimal]: below U+0100 the decimal digits are 0-9. *)
Definition isdigit (c : ascii) : bool :=
  ((48 <=? code c) && (code c <=? 57))%N.

(** [\s] and [str.isspace]: TAB..CR, FS..US, space, NEL and NBSP. *)
Definition isspace (c : ascii) : bool :=
  (((9 <=? code c) && (code c <=? 13)) || ((28 <=? code c) && (code c <=? 32))
   || (code c =? 133) || (code c =? 160))%N.

(** [str.lower] on one character: A-Z and the Latin-1 capitals
    U+00C0..U+00DE (the multiplication sign U+00D7 apart) move up by 32. *)
Definition lower_char (c : ascii) : ascii :=
  if (((65 <=? code c) && (code c <=? 90))
      || ((192 <=? code c) && (code c <=? 222) && negb (code c =? 215)))%N
  then ascii_of_N (code c + 32) else c.

Definition lower (s : pystr) : pystr := map lower_char s.

(** [a == b] *)
Fixpoint eqb (a b : pystr) : bool :=
  match a, b with
  | [], [] => true
  | x :: a', y :: b' => Ascii.eqb x y && eqb a' b'
  | _, _ => false
  end.

(** [s.startswith(p)] *)
Fixpoint startswith (p s : pystr) : bool :=
  match p, s with
  | [], _ => true
  | a :: p', b :: s' => Ascii.eqb a b && startswith p' s'
  | _ :: _, [] => false
  end.

(** [s.endswith(p)] *)
Definition endswith (p s : pystr) : bool := startswith (rev p) (rev s).

(** [p in s] for two strings: [p] occurs in [s] as a contiguous run. *)
Fixpoint contains (p s : pystr) : bool :=
  startswith p s || match s with [] => false | _ :: s' => contains p s' end.

Fixpoint drop_while (p : ascii -> bool) (s : pystr) : pystr :=
  match s with
  | c :: s' => if p c then drop_while p s' else s
  | [] => []
  end.

Definition lstrip (s : pystr) : pystr := drop_while isspace s.
Definition rstrip (s : pystr) : pystr := rev (drop_while isspace (rev s)).

(** [s.strip()] *)
Definition strip (s : pystr) : pystr := rstrip (lstrip s).

(** [sep.join(l)] *)
Fixpoint join (sep : pystr) (l : list pystr) : pystr :=
  match l with
  | [] => []
  | [x] => x
  | x :: l' => x ++ sep ++ join sep l'
  end.

(** [s.rfind(c)] for a one-character [c]: the highest index of [c] in [s],
    counted from [i] for the first character, and -1 when there is none. *)
Fixpoint rfind_from (c : ascii) (i : Z) (s : pystr) : Z :=
  match s with
  | [] => -1
  | x :: s' =>
      let r := rfind_from c (i + 1) s' in
      if (r =? -1)%Z then (if Ascii.eqb x c then i else -1) else r
  end.

Definition rfind (c : ascii) (s : pystr) : Z := rfind_from c 0 s.

(** [s[a:b]] for indices [0 <= a], [0 <= b] *)
Definition slice (s : pystr) (a b : Z) : pystr :=
  firstn (Z.to_nat b - Z.to_nat a) (skipn (Z.to_nat a) s).

(** [os.path.splitext] (posixpath) *)
Definition splitext (p : pystr) : pystr * pystr :=
  let sepIndex := rfind "/" p in
  let dotIndex := rfind "." p in
  if (sepIndex <? dotIndex)%Z then
    (* skip all leading dots *)
    if existsb (fun c => negb (Ascii.eqb c ".")) (slice p (sepIndex + 1) dotIndex)
    then (firstn (Z.to_nat dotIndex) p, skipn (Z.to_nat dotIndex) p)
    else (p, [])
  else (p, []).

(** [os.path.basename] (posixpath) *)
Definition basename (p : pystr) : pystr :=
  skipn (Z.to_nat (rfind "/" p + 1)) p.

(** [os.path.dirname] (posixpath) *)
Definition dirname (p : pystr) : pystr :=
  let head := firstn (Z.to_nat (rfind "/" p + 1)) p in
  if forallb (Ascii.eqb "/") head then head
  else rev (drop_while (Ascii.eqb "/") (rev head)).

(** [os.path.join(a, b)] (posixpath) *)
Definition path_join (a b : pystr) : pystr :=
  if startswith ["/"%char] b then b
  else if eqb a [] || endswith ["/"%char] a then a ++ b
  else a ++ "/"%char :: b.

End Py.

(** ** Regular expressions: the fragment of [re] the scripts use *)

Module Re.

Inductive regex : Type :=
| Eps                                   (* the empty pattern *)
| Bol                                   (* ^ *)
| Chr (c : ascii)                       (* a literal character *)
| Cls (p : ascii -> bool)               (* a character class or escape *)
| Seq (r1 r2 : regex)                   (* r1 r2 *)
| Alt (r1 r2 : regex)                   (* r1|r2 *)
| Opt (r : regex)                       (* r? *)
| Star (p : ascii -> bool)              (* class*, greedy *)
| Plus (p : ascii -> bool)              (* class+, greedy *)
| Grp (r : regex).                      (* ( r ), the group findall returns *)

Fixpoint seq (rs : list regex) : regex :=
  match rs with
  | [] => Eps
  | [r] => r
  | r :: rs' => Seq r (seq rs')
  end.

Definition lit (s : string) : regex := seq (map Chr (str s)).

Infix "·" := Seq (at level 60, right associativity).

(** The state of a match attempt: whether the position is the start of the
    subject, the text of the group, and what is left of the subject. *)
Record mstate : Type := MState {
  at_bol : bool;
  group : option pystr;
  rest : pystr
}.

Definition advance (st : mstate) (s' : pystr) : mstate :=
  {| at_bol := false; group := group st; rest := s' |}.

Definition step_chr (p : ascii -> bool) (st : mstate) : list mstate :=
  match rest st with
  | x :: s' => if p x then [advance st s'] else []
  | [] => []
  end.

(** Greedy repetition of a class over one or more characters of [s]: the
    longest run first, then each shorter one, as backtracking gives them back. *)
Fixpoint run_from (p : ascii -> bool) (st : mstate) (s : pystr) : list mstate :=
  match s with
  | x :: s' => if p x then run_from p st s' ++ [advance st s'] else []
  | [] => []
  end.

Definition chr_eq (icase : bool) (c x : ascii) : bool :=
  if icase then Ascii.eqb (Py.lower_char c) (Py.lower_char x) else Ascii.eqb c x.

(** All the ways [r] matches at [st], in the order Python tries them. *)
Fixpoint ms (icase : bool) (r : regex) (st : mstate) : list mstate :=
  match r with
  | Eps => [st]
  | Bol => if at_bol st then [st] else []
  | Chr c => step_chr (chr_eq icase c) st
  | Cls p => step_chr p st
  | Seq r1 r2 => flat_map (ms icase r2) (ms icase r1 st)
  | Alt r1 r2 => ms icase r1 st ++ ms icase r2 st
  | Opt r' => ms icase r' st ++ [st]
  | Star p => run_from p st (rest st) ++ [st]
  | Plus p => run_from p st (rest st)
  | Grp r' =>
      map (fun st' =>
             {| at_bol := at_bol st';
                group := Some (firstn (length (rest st) - length (rest st')) (rest st));
                rest := rest st' |})
          (ms icase r' st)
  end.

(** The match Python reports at a position: its length and its group. *)
Definition match_at (icase : bool) (r : regex) (bol : bool) (s : pystr)
  : option (nat * option pystr) :=
  match ms icase r {| at_bol := bol; group := None; rest := s |} with
  | st' :: _ => Some (length s - length (rest st'), group st')
  | [] => None
  end.

(** [re.sub(r, '', s)]: [skip] characters of a match are still to be dropped.
    An empty match replaces nothing. *)
Fixpoint sub_from (icase : bool) (r : regex) (bol : bool) (skip : nat) (s : pystr)
  : pystr :=
  match s with
  | [] => []
  | c :: s' =>
      match skip with
      | S k => sub_from icase r false k s'
      | O =>
          match match_at icase r bol s with
          | Some (S k, _) => sub_from icase r false k s'
          | _ => c :: sub_from icase r false 0 s'
          end
      end
  end.

Definition sub (icase : bool) (r : regex) (s : pystr) : pystr :=
  sub_from icase r true 0 s.

(** [re.findall(r, s)] for a pattern with one group that matches no empty
    string. *)
Fixpoint findall_from (r : regex) (bol : bool) (skip : nat) (s : pystr)
  : list pystr :=
  match s with
  | [] => []
  | _ :: s' =>
      match skip with
      | S k => findall_from r false k s'
      | O =>
          match match_at false r bol s with
          | Some (S k, g) => default [] g :: findall_from r false k s'
          | _ => findall_from r false 0 s'
          end
      end
  end.

Definition findall (r : regex) (s : pystr) : list pystr :=
  findall_from r true 0 s.

End Re.

(** ** Computations that raise *)

Module Exc.

Inductive exn : Type :=
| OSError | SameFileError | JSONDecodeError | AttributeError | ConnectionError.

Inductive outcome (A : Type) : Type :=
| Return (a : A)
| Raise (e : exn).
Arguments Return {A} a.
Arguments Raise {A} e.

(** A computation over a world [W]: what it returns or raises, and the world
    it leaves behind. *)
Definition M (W A : Type) : Type := W -> outcome A * W.

Definition ret {W A} (a : A) : M W A := fun w => (Return a, w).

Definition raise {W A} (e : exn) : M W A := fun w => (Raise e, w).

Definition bind {W A B} (m : M W A) (k : A -> M W B) : M W B :=
  fun w =>
    match m w with
    | (Return a, w') => k a w'
    | (Raise e, w') => (Raise e, w')
    end.

(** [try: m except Exception as e: h e] *)
Definition try_except {W A} (m : M W A) (h : exn -> M W A) : M W A :=
  fun w =>
    match m w with
    | (Return a, w') => (Return a, w')
    | (Raise e, w') => h e w'
    end.

Definition gets {W A} (f : W -> A) : M W A := fun w => (Return (f w), w).

Definition modify {W} (f : W -> W) : M W unit := fun w => (Return tt, f w).

Definition returns {W A} (m : M W A) (w : W) : Prop :=
  exists a w', m w = (Return a, w').

End Exc.

Declare Scope exc_scope.
Delimit Scope exc_scope with exc.
Notation "x <- c1 ;; c2" := (Exc.bind c1 (fun x => c2))
  (at level 100, c1 at next level, right associativity) : exc_scope.
Notation "c1 ;; c2" := (Exc.bind c1 (fun _ => c2))
  (at level 100, right associativity) : exc_scope.

(** ** The renamer: [rename_with_proper_tags.py] *)

Module Dict.

(** A [dict] with string keys, in insertion order. *)
Definition t (V : Type) : Type := list (pystr * V).

(** [d.get(k)] / [d[k]] *)
Fixpoint get {V} (k : pystr) (d : t V) : option V :=
  match d with
  | [] => None
  | (k', v) :: d' => if Py.eqb k' k then Some v else get k d'
  end.

(** [k in d] *)
Definition mem {V} (k : pystr) (d : t V) : bool :=
  match get k d with Some _ => true | None => false end.

(** [d[k] = v]: a known key keeps its place, a new one goes last. *)
Fixpoint set {V} (k : pystr) (v : V) (d : t V) : t V :=
  match d with
  | [] => [(k, v)]
  | (k', v') :: d' => if Py.eqb k' k then (k', v) :: d' else (k', v') :: set k v d'
  end.

Definition keys {V} (d : t V) : list pystr := map fst d.

End Dict.

Module Rename.
Import Re.

(** One object of the mapping file: what [item.get('filename', '')] and
    [item.get('tags', [])] return, the tags being an array of strings. *)
Record item : Type := Item {
  item_filename : pystr;
  item_tags : list pystr
}.

(** The loop of [load_name_tags_mapping] over the parsed array. *)
Fixpoint load_items (data : list item) (name_to_tags : Dict.t (list pystr))
  : Dict.t (list pystr) :=
  match data with
  | [] => name_to_tags
  | it :: data' =>
      let filename := Py.lower (Py.strip (item_filename it)) in
      let tags := item_tags it in
      load_items data'
        (if negb (Py.eqb filename []) then Dict.set filename tags name_to_tags
         else name_to_tags)
  end.

(** The tag index [load_name_tags_mapping] returns for a well-formed file. *)
Definition tag_index (data : list item) : Dict.t (list pystr) := load_items data [].

Definition audio_extensions : list pystr := [str ".mp3"; str ".wav"; str ".m4a"].

Definition is_audio (filename : pystr) : bool :=
  existsb (fun ext => Py.endswith ext (Py.lower filename)) audio_extensions.

(** r'^mateo_19182 - ' *)
Definition prefix_pattern : regex := Bol · lit "mateo_19182 - ".

(** r' \[\d+ bpm\]' *)
Definition bpm_tag_pattern : regex :=
  Chr " " · Chr "[" · (Plus Py.isdigit · lit " bpm") · Chr "]".

Definition not_rbracket (c : ascii) : bool := negb (Ascii.eqb c "]").

(** r' \[[^\]]+\]' *)
Definition any_tag_pattern : regex :=
  Chr " " · Chr "[" · Plus not_rbracket · Chr "]".

Definition key_letter (c : ascii) : bool :=
  ((65 <=? Py.code c) && (Py.code c <=? 71))%N.

Definition accidental : regex := Opt (Alt (Chr "#") (Chr "b")).

(** r' \[[A-G](#|b)?(/[A-G](#|b)?)?\s*(Major|Minor|Maj|Min)\]'; its groups are
    not read by [re.sub] and are written as plain sub-expressions. *)
Definition key_tag_pattern : regex :=
  Chr " " · Chr "["
  · (Cls key_letter · accidental · Opt (Chr "/" · Cls key_letter · accidental)
     · Star Py.isspace
     · Alt (lit "Major") (Alt (lit "Minor") (Alt (lit "Maj") (lit "Min"))))
  · Chr "]".

(** The four substitutions of [rename_files], in the order of the source. *)
Definition clean_name (filename : pystr) : pystr :=
  let clean_name := sub true prefix_pattern filename in
  let clean_name := sub false bpm_tag_pattern clean_name in
  let clean_name := sub false key_tag_pattern clean_name in
  sub false any_tag_pattern clean_name.

(** [(base_name, extension)] as [rename_files] has them before matching. *)
Definition base_and_ext (filename : pystr) : pystr * pystr :=
  let (base_name, extension) := Py.splitext (clean_name filename) in
  (Py.strip base_name, extension).

(** The partial match: the value of the first key, in the order of
    [items()], that contains the base name or is contained in it. *)
Fixpoint partial_match (base_name : pystr) (items : Dict.t (list pystr))
  : list pystr :=
  match items with
  | [] => []
  | (key, value) :: items' =>
      if Py.contains (Py.lower key) (Py.lower base_name)
         || Py.contains (Py.lower base_name) (Py.lower key)
      then value
      else partial_match base_name items'
  end.

(** The tags [rename_files] finds for a base name. *)
Definition match_tags (base_name : pystr) (name_tags_mapping : Dict.t (list pystr))
  : list pystr :=
  match Dict.get (Py.lower base_name) name_tags_mapping with
  | Some tags => tags
  | None => partial_match base_name name_tags_mapping
  end.

(** The new filename of [rename_files]. *)
Definition new_filename (base_name : pystr) (tags : list pystr) (extension : pystr)
  : pystr :=
  match tags with
  | [] => base_name ++ extension
  | _ =>
      let tag_string := Py.join (str " ") (map (fun tag => str "[" ++ tag ++ str "]") tags) in
      base_name ++ str " " ++ tag_string ++ extension
  end.

(** *** The file system and the batch *)

Abbreviation bytes := (list Byte.byte).

Inductive io_event : Type :=
| EvRead (path : pystr)       (* a file was opened and read *)
| EvWrite (path : pystr)      (* a file was created or overwritten *)
| EvMkdir (path : pystr).     (* a directory was created *)

(** The world of the renamer.  [place] is the file or directory a path
    names: two spellings that the system takes to the same file, such as
    "d/a.mp3" and "./d/a.mp3", or a link and what it points to, have the same
    place; the renamer makes no link, so it is the same all along.  [files]
    and [dirs] are the files and directories there are, by place.  [listing]
    is what [os.listdir] returns, in the order it returns it ([None]: it
    raises); [denied] holds the paths the operating system refuses to open or
    create, whatever the reason. *)
Record world : Type := World {
  place : pystr -> pystr;
  files : gmap pystr bytes;
  dirs : gset pystr;
  listing : pystr -> option (list pystr);
  denied : pystr -> bool;
  log : list io_event
}.

Definition set_files (f : gmap pystr bytes) (w : world) : world :=
  {| place := place w; files := f; dirs := dirs w; listing := listing w;
     denied := denied w; log := log w |}.
Definition set_dirs (d : gset pystr) (w : world) : world :=
  {| place := place w; files := files w; dirs := d; listing := listing w;
     denied := denied w; log := log w |}.
Definition emit (e : io_event) (w : world) : world :=
  {| place := place w; files := files w; dirs := dirs w; listing := listing w;
     denied := denied w; log := log w ++ [e] |}.

Import Exc.
Local Open Scope exc_scope.

(** [os.path.isfile], [os.path.isdir], [os.path.exists] *)
Definition isfile (p : pystr) : M world bool :=
  gets (fun w => bool_decide (is_Some (files w !! place w p))).
Definition isdir (p : pystr) : M world bool :=
  gets (fun w => bool_decide (place w p ∈ dirs w)).
Definition exists_ (p : pystr) : M world bool :=
  gets (fun w => bool_decide (is_Some (files w !! place w p))
                 || bool_decide (place w p ∈ dirs w)).

(** The paths above [p], the shortest first: what stands before a slash of
    [p] and does not itself end with a slash. *)
Fixpoint parents_from (head s : pystr) : list pystr :=
  match s with
  | [] => []
  | c :: s' =>
      (if Ascii.eqb c "/"
       then match head with
            | [] => []
            | h :: _ => if Ascii.eqb h "/" then [] else [rev head]
            end
       else [])
      ++ parents_from (c :: head) s'
  end.

Definition parents (p : pystr) : list pystr := parents_from [] p.

(** [os.mkdir(p)] where [os.makedirs(..., exist_ok=True)] calls it: nothing
    to do for a directory that is there; a file in its place, or a refusal of
    the system, raises. *)
Definition mkdir_missing (p : pystr) : M world unit :=
  d <- isdir p ;;
  if d then ret tt
  else
    f <- isfile p ;;
    no <- gets (fun w => denied w p) ;;
    if f || no then raise OSError
    else modify (fun w => emit (EvMkdir p) (set_dirs ({[place w p]} ∪ dirs w) w)).

Fixpoint mkdirs (l : list pystr) : M world unit :=
  match l with
  | [] => ret tt
  | p :: l' => mkdir_missing p ;; mkdirs l'
  end.

(** [os.makedirs(p, exist_ok=True)]: the missing directories above [p] are
    made first; the empty path raises. *)
Definition makedirs (p : pystr) : M world unit :=
  if Py.eqb p [] then raise OSError else mkdirs (parents p ++ [p]).

(** [os.listdir(p)] *)
Definition listdir (p : pystr) : M world (list pystr) :=
  l <- gets (fun w => listing w p) ;;
  match l with Some entries => ret entries | None => raise OSError end.

(** [open(p, 'rb').read()] *)
Definition read_file (p : pystr) : M world bytes :=
  c <- gets (fun w => files w !! place w p) ;;
  no <- gets (fun w => denied w p) ;;
  match c with
  | Some b => if no then raise OSError else modify (emit (EvRead p)) ;; ret b
  | None => raise OSError
  end.

(** The directory of [p] is there: [open(p, 'wb')] raises when it is not.
    A path without a directory part is taken from the working directory. *)
Definition parent_isdir (p : pystr) : M world bool :=
  let parent := Py.dirname p in
  if Py.eqb parent [] then ret true else isdir parent.

(** [open(p, 'wb').write(b)] *)
Definition write_file (p : pystr) (b : bytes) : M world unit :=
  d <- isdir p ;;
  up <- parent_isdir p ;;
  no <- gets (fun w => denied w p) ;;
  if d || negb up || no then raise OSError
  else modify (fun w => emit (EvWrite p) (set_files (<[place w p := b]> (files w)) w)).

(** [os.path.samefile(a, b)] as [shutil] asks it: two paths that are there
    and name the same place; where [os.stat] raises, the answer is no. *)
Definition samefile (a b : pystr) : M world bool :=
  ea <- exists_ a ;;
  eb <- exists_ b ;;
  pa <- gets (fun w => place w a) ;;
  pb <- gets (fun w => place w b) ;;
  ret (ea && eb && Py.eqb pa pb).

(** [shutil.copy2(src, dst)]: into [dst] when it is a directory, refused
    when source and destination are the same file. *)
Definition copy2 (src dst : pystr) : M world unit :=
  d <- isdir dst ;;
  let dst := if d then Py.path_join dst (Py.basename src) else dst in
  same <- samefile src dst ;;
  if same then raise SameFileError
  else
    b <- read_file src ;;
    write_file dst b.

Section Renamer.

Variables (input_directory output_directory : pystr).
Variable name_tags_mapping : Dict.t (list pystr).

(** The body of the [try] of [rename_files] for one file. *)
Definition rename_file (filename : pystr) : M world unit :=
  let input_path := Py.path_join input_directory filename in
  let (base_name, extension) := base_and_ext filename in
  let tags := match_tags base_name name_tags_mapping in
  let new_filename := new_filename base_name tags extension in
  let output_path := Py.path_join output_directory new_filename in
  copy2 input_path output_path.

(** The loop of [rename_files]; the counters are [(rename_count, error_count)]. *)
Fixpoint rename_loop (entries : list pystr) (counts : nat * nat) : M world (nat * nat) :=
  match entries with
  | [] => ret counts
  | filename :: entries' =>
      f <- isfile (Py.path_join input_directory filename) ;;
      if negb f || negb (is_audio filename) then rename_loop entries' counts
      else
        ok <- try_except (rename_file filename ;; ret true) (fun _ => ret false) ;;
        rename_loop entries'
          (if ok : bool then (S (fst counts), snd counts) else (fst counts, S (snd counts)))
  end.

(** [rename_files]; it returns the two counters it prints. *)
Definition rename_files : M world (nat * nat) :=
  makedirs output_directory ;;
  entries <- listdir input_directory ;;
  rename_loop entries (0, 0).

End Renamer.

(** What [json.load] makes of the bytes of the mapping file. *)
Inductive parsed : Type :=
| Malformed                    (* not JSON: json.load raises *)
| IllTyped                     (* JSON, but not an array of objects with a
                                  string filename: the loop over it raises *)
| Items (data : list item).

Section Main.

Variable json_load : bytes -> parsed.

(** [load_name_tags_mapping]: any exception gives the empty mapping. *)
Definition load_name_tags_mapping (json_file : pystr) : M world (Dict.t (list pystr)) :=
  try_except
    (b <- read_file json_file ;;
     match json_load b with
     | Items data => ret (tag_index data)
     | Malformed => raise JSONDecodeError
     | IllTyped => raise AttributeError
     end)
    (fun _ => ret []).

Record args : Type := Args {
  arg_input_directory : pystr;
  arg_output_directory : option pystr;
  arg_tags_file : option pystr
}.

Definition tags_file_of (script_dir : pystr) (a : args) : pystr :=
  default (Py.path_join script_dir (str "offtop_name_tags.json")) (arg_tags_file a).

Definition output_directory_of (a : args) : pystr :=
  default (arg_input_directory a ++ str "_processed") (arg_output_directory a).

(** [main]; [None] is an early [return], [Some counts] a completed batch. *)
Definition main (script_dir : pystr) (a : args) : M world (option (nat * nat)) :=
  let output_directory := output_directory_of a in
  let tags_file := tags_file_of script_dir a in
  e <- exists_ (arg_input_directory a) ;;
  if negb e then ret None
  else
    e <- exists_ tags_file ;;
    if negb e then ret None
    else
      name_tags_mapping <- load_name_tags_mapping tags_file ;;
      match name_tags_mapping with
      | [] => ret None
      | _ =>
          counts <- rename_files (arg_input_directory a) output_directory name_tags_mapping ;;
          ret (Some counts)
      end.

End Main.

End Rename.


(** ** The upload client: [upload_to_service.py] *)

Module Upload.
Import Re Exc.
Local Open Scope exc_scope.

(** What [response.json()] returns; numbers are integers. *)
#[warnings="-register-all"] Inductive json : Type :=
| JNull
| JBool (b : bool)
| JNum (n : Z)
| JStr (s : pystr)
| JArr (l : list json)
| JObj (l : list (pystr * json)).

(** Python's truth value of a parsed JSON value. *)
Definition truthy (j : json) : bool :=
  match j with
  | JNull => false
  | JBool b => b
  | JNum n => negb (n =? 0)%Z
  | JStr s => negb (Py.eqb s [])
  | JArr l => match l with [] => false | _ => true end
  | JObj l => match l with [] => false | _ => true end
  end.

Inductive method : Type := GET | POST.

(** A request of the session: the form fields, and the path of the file sent
    with it, if any. *)
Record request : Type := Request {
  req_method : method;
  req_url : pystr;
  req_data : list (pystr * json);
  req_file : option pystr
}.

(** A response: [body] is [None] when the text is not JSON. *)
Record response : Type := Response {
  status_code : Z;
  body : option json;
  set_cookies : list (pystr * pystr)
}.

(** The world of the client: the cookie jar of the session, the service as
    what it answers to each request ([None]: the request raises), the requests
    sent so far, the files that cannot be opened, and what [os.walk] yields. *)
Record world : Type := World {
  cookies : Dict.t pystr;
  service : request -> option response;
  sent : list request;
  unreadable : pystr -> bool;
  walk : pystr -> list (pystr * list pystr)
}.

Definition record_request (req : request) (jar : Dict.t pystr) (w : world) : world :=
  {| cookies := jar; service := service w; sent := sent w ++ [req];
     unreadable := unreadable w; walk := walk w |}.

Definition store_cookies (l : list (pystr * pystr)) (jar : Dict.t pystr) : Dict.t pystr :=
  fold_left (fun jar c => Dict.set (fst c) (snd c) jar) l jar.

(** [session.request]: the answer's cookies go to the jar. *)
Definition send (req : request) : M world response :=
  fun w =>
    match service w req with
    | Some r => (Return r, record_request req (store_cookies (set_cookies r) (cookies w)) w)
    | None => (Raise ConnectionError, record_request req (cookies w) w)
    end.

Definition session_get (url : pystr) : M world response :=
  send {| req_method := GET; req_url := url; req_data := []; req_file := None |}.

Definition session_post (url : pystr) (data : list (pystr * json)) (file : option pystr)
  : M world response :=
  send {| req_method := POST; req_url := url; req_data := data; req_file := file |}.

(** [response.json()] *)
Definition json_of (r : response) : M world json :=
  match body r with Some j => ret j | None => raise JSONDecodeError end.

(** [j.get(k)]: only an object has [get]; a missing key gives [None]. *)
Definition json_get (k : pystr) (j : json) : M world json :=
  match j with
  | JObj l => ret (default JNull (Dict.get k (rev l)))
  | _ => raise AttributeError
  end.

Definition marker : pystr := str "next-auth.session-token".

(** The loop over [session.cookies.items()]: the value of the first cookie
    whose name contains the marker. *)
Fixpoint find_session_token (jar : Dict.t pystr) : option pystr :=
  match jar with
  | [] => None
  | (cookie_name, cookie_value) :: jar' =>
      if Py.contains marker cookie_name then Some cookie_value
      else find_session_token jar'
  end.

Section Login.

Variables (api_base_url email password : pystr).

Definition csrf_url : pystr := api_base_url ++ str "/api/auth/csrf".
Definition signin_url : pystr := api_base_url ++ str "/api/auth/signin/credentials".
Definition callback_url : pystr := api_base_url ++ str "/api/auth/callback/credentials".

Definition nextauth_data (csrf_token : json) : list (pystr * json) :=
  [(str "email", JStr email); (str "password", JStr password);
   (str "redirect", JStr (str "false")); (str "csrfToken", csrf_token);
   (str "callbackUrl", JStr api_base_url); (str "json", JStr (str "true"))].

Definition direct_data : list (pystr * json) :=
  [(str "email", JStr email); (str "password", JStr password);
   (str "redirect", JStr (str "false")); (str "callbackUrl", JStr api_base_url)].

(** The body of the [try] of [login_nextauth]. *)
Definition login_nextauth_body : M world (option pystr) :=
  csrf_response <- session_get csrf_url ;;
  if negb (status_code csrf_response =? 200)%Z then ret None
  else
    csrf_data <- json_of csrf_response ;;
    csrf_token <- json_get (str "csrfToken") csrf_data ;;
    if negb (truthy csrf_token) then ret None
    else
      let login_data := nextauth_data csrf_token in
      signin_response <- session_post signin_url login_data None ;;
      if negb (status_code signin_response =? 200)%Z then ret None
      else
        callback_response <- session_post callback_url login_data None ;;
        if (status_code callback_response =? 200)%Z
        then gets (fun w => find_session_token (cookies w))
        else ret None.

Definition login_nextauth : M world (option pystr) :=
  try_except login_nextauth_body (fun _ => ret None).

(** The body of the [try] of [login_direct]. *)
Definition login_direct_body : M world (option pystr) :=
  session_post callback_url direct_data None ;;
  gets (fun w => find_session_token (cookies w)).

Definition login_direct : M world (option pystr) :=
  try_except login_direct_body (fun _ => ret None).

(** [if token:] a token is a non-empty string. *)
Definition token_truthy (token : option pystr) : bool :=
  match token with Some (_ :: _) => true | _ => false end.

Definition login : M world (option pystr) :=
  try_except
    (token <- login_nextauth ;;
     if token_truthy token then ret token
     else login_direct)
    (fun _ => ret None).

End Login.

(** r'\\[([^\\]]+)\\]' *)
Definition tag_pattern : regex :=
  Chr "[" · Grp (Plus Rename.not_rbracket) · Chr "]".

(** The tags [upload_file] sends for a path. *)
Definition extract_tags (file_path : pystr) : list pystr :=
  let filename := Py.basename file_path in
  findall tag_pattern filename.

(** [open(file_path, 'rb')] *)
Definition open_rb (file_path : pystr) : M world unit :=
  no <- gets (fun w => unreadable w file_path) ;;
  if no then raise OSError else ret tt.

Definition upload_request (api_url file_path : pystr) : request :=
  {| req_method := POST; req_url := api_url;
     req_data := map (fun tag => (str "tags", JStr tag)) (extract_tags file_path);
     req_file := Some file_path |}.

(** [upload_file]; [None] is Python's [None]. *)
Definition upload_file (file_path api_url : pystr) : M world (option json) :=
  try_except
    (open_rb file_path ;;
     response <- send (upload_request api_url file_path) ;;
     if (status_code response =? 200)%Z || (status_code response =? 201)%Z
     then result <- json_of response ;; ret (Some result)
     else ret None)
    (fun _ => ret None).

(** [if result:] *)
Definition result_truthy (result : option json) : bool :=
  match result with Some j => truthy j | None => false end.

Definition audio_extensions : list pystr :=
  [str ".mp3"; str ".wav"; str ".ogg"; str ".m4a"; str ".flac"; str ".aac"].

Definition is_audio (file : pystr) : bool :=
  existsb (fun ext => Py.endswith ext (Py.lower file)) audio_extensions.

(** The audio files [upload_directory] collects from [os.walk]. *)
Definition audio_files (tree : list (pystr * list pystr)) : list pystr :=
  flat_map (fun '(root, files) =>
              map (Py.path_join root) (List.filter is_audio files))
           tree.

(** The upload loop; the counters are [(success_count, error_count)]. *)
Fixpoint upload_loop (api_url : pystr) (audio_files : list pystr) (counts : nat * nat)
  : M world (nat * nat) :=
  match audio_files with
  | [] => ret counts
  | file_path :: audio_files' =>
      result <- upload_file file_path api_url ;;
      upload_loop api_url audio_files'
        (if result_truthy result then (S (fst counts), snd counts)
         else (fst counts, S (snd counts)))
  end.

Definition upload_directory (directory_path api_url : pystr) : M world (nat * nat) :=
  tree <- gets (fun w => walk w directory_path) ;;
  upload_loop api_url (audio_files tree) (0, 0).

End Upload.

(** ** The command line of the upload client: [main] of [upload_to_service.py] *)

Module Session.
Import Exc Upload.
Local Open Scope exc_scope.

(** [s.split(sep)] for a non-empty [sep]: [skip] characters of a separator
    are still to be passed, [cur] is the piece being read, last character
    first. *)
Fixpoint split_from (sep : pystr) (skip : nat) (cur s : pystr) : list pystr :=
  match s with
  | [] => [rev cur]
  | c :: s' =>
      match skip with
      | S k => split_from sep k cur s'
      | O =>
          if Py.startswith sep s then rev cur :: split_from sep (length sep - 1) [] s'
          else split_from sep 0 (c :: cur) s'
      end
  end.

Definition split (sep s : pystr) : list pystr := split_from sep 0 [] s.

(** [api_base_url.split('//')[1].split(':')[0]]; [None] is the [IndexError]
    of the index 1 (the index 0 of a split always exists). *)
Definition cookie_domain (api_base_url : pystr) : option pystr :=
  match nth_error (split (str "//") api_base_url) 1 with
  | Some host => Some (hd [] (split (str ":") host))
  | None => None
  end.

(** The file [.auth_session] beside the script: absent, there but not to be
    opened or unpickled, or the pickle of a session with its cookie jar. *)
Inductive session_file : Type :=
| NoSession
| Unloadable
| Pickled (jar : Dict.t pystr).

(** The world of [main]: the world of the client, what [os.path.exists]
    says of a directory, the session file, and whether it can be written. *)
Record world : Type := World {
  net : Upload.world;
  path_exists : pystr -> bool;
  saved : session_file;
  writable : bool
}.

Definition set_net (n : Upload.world) (w : world) : world :=
  {| net := n; path_exists := path_exists w; saved := saved w; writable := writable w |}.

Definition set_saved (s : session_file) (w : world) : world :=
  {| net := net w; path_exists := path_exists w; saved := s; writable := writable w |}.

Definition set_jar (jar : Dict.t pystr) (n : Upload.world) : Upload.world :=
  {| cookies := jar; service := service n; sent := sent n;
     unreadable := unreadable n; walk := walk n |}.

(** A computation of the client, run in the world of [main]. *)
Definition lift {A} (m : M Upload.world A) : M world A :=
  fun w => let (r, n) := m (net w) in (r, set_net n w).

Record args : Type := Args {
  arg_directory : pystr;
  arg_api_url : pystr;
  arg_email : option pystr;
  arg_password : option pystr;
  arg_session_token : option pystr;
  arg_save_session : bool;
  arg_load_session : bool
}.

(** How a run of [main] ends: an early [return], the [IndexError] of the
    cookie domain, which nothing catches, or the batch with its counters
    [(success_count, error_count)]. *)
Inductive ending : Type :=
| Stopped
| IndexError
| Uploaded (counts : nat * nat).

(** The [try] that loads the saved session: the cookies of the pickle go to
    the jar, and the token is the value of the first cookie whose name
    contains the marker.  Whatever is raised, the token stays [None]. *)
Definition load_saved_session : M world (option pystr) :=
  try_except
    (s <- gets saved ;;
     match s with
     | Pickled jar =>
         lift (modify (fun n => set_jar (store_cookies jar (cookies n)) n)) ;;
         lift (gets (fun n => find_session_token (cookies n)))
     | _ => raise OSError
     end)
    (fun _ => ret None).

(** The [try] that saves the session. *)
Definition save_session : M world unit :=
  try_except
    (ok <- gets writable ;;
     if ok : bool then
       jar <- lift (gets cookies) ;;
       modify (set_saved (Pickled jar))
     else raise OSError)
    (fun _ => ret tt).

(** The end of [main], once a token is there: the session is saved when
    asked for, and the directory is uploaded. *)
Definition save_and_upload (a : args) : M world ending :=
  (if arg_save_session a then save_session else ret tt) ;;
  counts <- lift (upload_directory (arg_directory a) (arg_api_url a ++ str "/api/upload")) ;;
  ret (Uploaded counts).

(** [main] *)
Definition main (a : args) : M world ending :=
  e <- gets (fun w => path_exists w (arg_directory a)) ;;
  if negb e then ret Stopped
  else
    there <- gets (fun w => match saved w with NoSession => false | _ => true end) ;;
    token <- (if arg_load_session a && there then load_saved_session else ret None) ;;
    if token_truthy token then save_and_upload a
    else if token_truthy (arg_session_token a) then
      match cookie_domain (arg_api_url a) with
      | Some _ =>
          lift (modify (fun n => set_jar (Dict.set marker (default [] (arg_session_token a))
                                            (cookies n)) n)) ;;
          save_and_upload a
      | None => ret IndexError
      end
    else if token_truthy (arg_email a) && token_truthy (arg_password a) then
      token <- lift (login (arg_api_url a) (default [] (arg_email a))
                       (default [] (arg_password a))) ;;
      if token_truthy token then save_and_upload a else ret Stopped
    else ret Stopped.

End Session.

(** ** The tag export: [extract_tags_from_offtop.py] *)

Module Offtop.
Import Re.


(** [re.sub(r, repl, s)] for a pattern that matches no empty string: [skip]
    characters of a match are still to be passed. *)
Fixpoint sub_from (r : regex) (repl : pystr) (bol : bool) (skip : nat) (s : pystr)
  : pystr :=
  match s with
  | [] => []
  | c :: s' =>
      match skip with
      | S k => sub_from r repl false k s'
      | O =>
          match match_at false r bol s with
          | Some (S k, _) => repl ++ sub_from r repl false k s'
          | _ => c :: sub_from r repl false 0 s'
          end
      end
  end.

Definition sub (r : regex) (repl s : pystr) : pystr := sub_from r repl true 0 s.


End Offtop.

(** * Vocabulary of the statements *)

Module Lang.
Import Re.

(** The words a pattern can match, whatever the position. *)
Fixpoint lang (icase : bool) (r : regex) (w : pystr) : Prop :=
  match r with
  | Eps | Bol => w = []
  | Chr c => exists x, w = [x] /\ chr_eq icase c x = true
  | Cls p => exists x, w = [x] /\ p x = true
  | Seq r1 r2 => exists w1 w2, w = w1 ++ w2 /\ lang icase r1 w1 /\ lang icase r2 w2
  | Alt r1 r2 => lang icase r1 w \/ lang icase r2 w
  | Opt r' => w = [] \/ lang icase r' w
  | Star p => Forall (fun x => p x = true) w
  | Plus p => w <> [] /\ Forall (fun x => p x = true) w
  | Grp r' => lang icase r' w
  end.

(** No word of [r] holds the character [c0] (case-sensitive matching). *)
Fixpoint avoids (c0 : ascii) (r : regex) : bool :=
  match r with
  | Eps | Bol => true
  | Chr c => negb (Ascii.eqb c c0)
  | Cls p | Star p | Plus p => negb (p c0)
  | Seq r1 r2 | Alt r1 r2 => avoids c0 r1 && avoids c0 r2
  | Opt r' | Grp r' => avoids c0 r'
  end.

(** Every word of [r] has a character. *)
Fixpoint nonnull (r : regex) : bool :=
  match r with
  | Eps | Bol | Opt _ | Star _ => false
  | Chr _ | Cls _ | Plus _ => true
  | Seq r1 r2 => nonnull r1 || nonnull r2
  | Alt r1 r2 => nonnull r1 && nonnull r2
  | Grp r' => nonnull r'
  end.

(** [s] starts with a bracketed group that a space precedes, [n] characters
    long: a space, an opening bracket, a non-empty body without a closing
    bracket, and the closing bracket. *)
Definition group_at (s : pystr) (n : nat) : Prop :=
  exists b s', s = " "%char :: "["%char :: b ++ "]"%char :: s'
               /\ n = 3 + length b /\ b <> [] /\ ~ In "]"%char b.

(** A pattern of the shape [ \[body\]]. *)
Definition bracketed (body : regex) : regex := Chr " " · Chr "[" · body · Chr "]".

(** A pattern that matches nothing but bracketed groups. *)
Definition brackets_only (r : regex) : Prop :=
  forall bol s n g, match_at false r bol s = Some (n, g) -> group_at s n.

End Lang.

(** Names of files: their parts, and what the statements ask of them. *)

Module Names.
Import Re Lang.

(** A filename cut into plain text and annotations. *)
Inductive segment : Type :=
| Text (t : pystr)
| Annotation (w : pystr).

Definition render (seg : segment) : pystr :=
  match seg with Text t => t | Annotation w => w end.

Definition flatten (segs : list segment) : pystr := concat (map render segs).

(** The same name with every annotation taken out. *)
Definition texts (segs : list segment) : pystr :=
  concat (map (fun seg => match seg with Text t => t | Annotation _ => [] end) segs).

(** An annotation is a word of one of the three bracket patterns, the BPM,
    the musical key or the generic tag, with no further opening bracket after
    its own. *)
Definition annotation (w : pystr) : Prop :=
  (lang false Rename.bpm_tag_pattern w \/ lang false Rename.key_tag_pattern w
   \/ lang false Rename.any_tag_pattern w)
  /\ ~ In "["%char (skipn 2 w).

(** Plain text holds no opening bracket. *)
Definition wf_segment (seg : segment) : Prop :=
  match seg with
  | Text t => ~ In "["%char t
  | Annotation w => annotation w
  end.

(** What the substitutions rely on: the shape of an annotation. *)
Definition wf_body (seg : segment) : Prop :=
  match seg with
  | Text t => ~ In "["%char t
  | Annotation w =>
      exists b, w = " "%char :: "["%char :: b ++ ["]"%char]
                /\ b <> [] /\ ~ In "]"%char b /\ ~ In "["%char b
  end.

(** [thinned segs segs']: [segs'] is [segs] without some of its annotations. *)
Inductive thinned : list segment -> list segment -> Prop :=
| thinned_nil : thinned [] []
| thinned_keep seg segs segs' : thinned segs segs' -> thinned (seg :: segs) (seg :: segs')
| thinned_drop w segs segs' : thinned segs segs' -> thinned (Annotation w :: segs) segs'.

(** [s] does not start with an opening bracket. *)
Definition no_open (s : pystr) : Prop :=
  match s with c :: _ => c <> "["%char | [] => True end.

(** The characters an audio extension never holds. *)
Definition special (c : ascii) : Prop :=
  c = "."%char \/ c = "/"%char \/ c = "["%char \/ c = "]"%char.

(** The last four characters of an audio name: a dot and three characters
    that are no dot, slash or bracket. *)
Definition audio_tail (e : pystr) : Prop :=
  exists x y z, e = ["."%char; x; y; z] /\ ~ special x /\ ~ special y /\ ~ special z.

(** The bracketed group the renamer writes for a tag. *)
Definition bracket_group (tag : pystr) : pystr := str " [" ++ tag ++ str "]".

(** A tag the upload client reads back as it is. *)
Definition sound_tag (tag : pystr) : Prop :=
  tag <> [] /\ ~ In "]"%char tag /\ ~ In "/"%char tag.

(** The parts of "Intro [128 bpm] [C Major] [Dark].mp3". *)
Definition intro_segments : list segment :=
  [Text (str "Intro"); Annotation (str " [128 bpm]"); Annotation (str " [C Major]");
   Annotation (str " [Dark]"); Text (str ".mp3")].

(** Whitespace only. *)
Definition blank (s : pystr) : Prop := Forall (fun c => Py.isspace c = true) s.

(** A base name: no whitespace at either end, no slash, and a character
    that is no dot. *)
Definition base_text (b : pystr) : Prop :=
  (exists c, In c b /\ c <> "."%char)
  /\ ~ In "/"%char b
  /\ match b with c :: _ => Py.isspace c = false | [] => True end
  /\ match rev b with c :: _ => Py.isspace c = false | [] => True end.

(** An extension: a dot, then neither dot nor slash. *)
Definition extension_text (e : pystr) : Prop :=
  exists x, e = "."%char :: x /\ ~ In "."%char x /\ ~ In "/"%char x.

(** A generic tag with a BPM annotation inside: "X [x [1 bpm].mp3". *)
Definition nested_segments : list segment :=
  [Text (str "X"); Annotation (str " [x [1 bpm]"); Text (str ".mp3")].

(** A BPM annotation after two blanks, a bracketed group right behind it:
    "Intro  [128 bpm][Dark].mp3". *)
Definition adjacent_segments : list segment :=
  [Text (str "Intro "); Annotation (str " [128 bpm]"); Text (str "[Dark].mp3")].

End Names.

Module MatcherSpec.
Import Rename.

(** The resolution order as the specification words it: a case-insensitive
    exact key lookup, then the first key, in the stored order, that is a
    substring of the base name or has it as a substring (case-insensitive),
    and the empty tag list when no key matches. *)
Definition same_name (base_name : pystr) (entry : pystr * list pystr) : bool :=
  Py.eqb (Py.lower (fst entry)) (Py.lower base_name).

Definition related (base_name : pystr) (entry : pystr * list pystr) : bool :=
  Py.contains (Py.lower (fst entry)) (Py.lower base_name)
  || Py.contains (Py.lower base_name) (Py.lower (fst entry)).

Definition resolve (base_name : pystr) (index : list (pystr * list pystr)) : list pystr :=
  match List.find (same_name base_name) index with
  | Some entry => snd entry
  | None =>
      match List.find (related base_name) index with
      | Some entry => snd entry
      | None => []
      end
  end.

(** The keys of a list of names in the order of their first occurrence. *)
Fixpoint first_occurrences (l : list pystr) : list pystr :=
  match l with
  | [] => []
  | x :: l' => x :: List.filter (fun y => negb (Py.eqb y x)) (first_occurrences l')
  end.

(** The key an item of the mapping file is stored under. *)
Definition key_of (it : Rename.item) : pystr :=
  Py.lower (Py.strip (Rename.item_filename it)).

Definition keyed (data : list Rename.item) : list pystr :=
  List.filter (fun k => negb (Py.eqb k [])) (map key_of data).

(** The keys of an index are non-empty and lower-cased. *)
Definition folded (d : Dict.t (list pystr)) : Prop :=
  Forall (fun k => k <> [] /\ Py.lower k = k) (Dict.keys d).

(** [y] is none of the keys seen so far. *)
Definition fresh (seen : list pystr) (y : pystr) : bool :=
  negb (existsb (fun x => Py.eqb y x) seen).

(** A mapping file of two items, and the index of one. *)
Definition two_items : list item :=
  [ {| item_filename := str "Intro"; item_tags := [str "Dark"; str "Cinematic"] |};
    {| item_filename := str "Outro"; item_tags := [str "Bright"] |} ].

Definition intro_index : Dict.t (list pystr) :=
  tag_index [ {| item_filename := str "Intro"; item_tags := [str "Dark"; str "Cinematic"] |} ].

End MatcherSpec.

Module UploadSpec.
Import Upload.

(** What uploading a file meets: no answer when the file cannot be opened
    or the request raises, the response otherwise. *)
Definition answer (w : world) (api_url file_path : pystr) : option response :=
  if unreadable w file_path then None else service w (upload_request api_url file_path).

Definition ok_status (status : Z) : bool := (status =? 200)%Z || (status =? 201)%Z.

(** The upload is answered 200 or 201 with a JSON body. *)
Definition accepted (w : world) (api_url file_path : pystr) : bool :=
  match answer w api_url file_path with
  | Some r => ok_status (status_code r) && bool_decide (is_Some (body r))
  | None => false
  end.

(** The upload is answered 200 or 201 with a JSON body that Python takes
    for true: what the batch counts as a success. *)
Definition counted (w : world) (api_url file_path : pystr) : bool :=
  match answer w api_url file_path with
  | Some r => ok_status (status_code r) && result_truthy (body r)
  | None => false
  end.

(** No accepted upload has a payload that Python takes for false. *)
Definition payloads_truthy (w : world) (api_url : pystr) (files : list pystr) : Prop :=
  forall file_path r j,
    In file_path files -> answer w api_url file_path = Some r ->
    ok_status (status_code r) = true -> body r = Some j -> truthy j = true.

(** Two worlds with the same service, files and directory tree. *)
Definition same_service (w w' : world) : Prop :=
  service w' = service w /\ unreadable w' = unreadable w /\ walk w' = walk w.

(** The two requests a login sends when the CSRF fetch is refused. *)
Definition csrf_request (api_base_url : pystr) : request :=
  {| req_method := GET; req_url := csrf_url api_base_url; req_data := []; req_file := None |}.

Definition direct_request (api_base_url email password : pystr) : request :=
  {| req_method := POST; req_url := callback_url api_base_url;
     req_data := direct_data api_base_url email password; req_file := None |}.

(** Eight audio files and one text file; five uploads are answered 200 or
    201, three 500, 404 and 403. *)
Definition eight_answers : Dict.t response :=
  let ok st := {| status_code := st; body := Some (JObj [(str "ok", JBool true)]);
                  set_cookies := [] |} in
  let ko st := {| status_code := st; body := Some (JObj [(str "error", JStr (str "no"))]);
                  set_cookies := [] |} in
  [ (str "music/a.mp3", ok 200%Z); (str "music/b.wav", ok 201%Z);
    (str "music/c.mp3", ko 500%Z); (str "music/d.flac", ok 200%Z);
    (str "music/e.ogg", ko 404%Z); (str "music/f.m4a", ok 201%Z);
    (str "music/g.aac", ok 200%Z); (str "music/h.MP3", ko 403%Z) ].

Definition eight_files : world :=
  {| cookies := [];
     service := fun req => match req_file req with
                           | Some p => Dict.get p eight_answers
                           | None => None
                           end;
     sent := [];
     unreadable := fun _ => false;
     walk := fun d => [(d, [str "a.mp3"; str "b.wav"; str "c.mp3"; str "notes.txt";
                            str "d.flac"; str "e.ogg"; str "f.m4a"; str "g.aac";
                            str "h.MP3"])] |}.

(** One audio file, answered 200 with a body that is not JSON, or with the
    JSON object [{}]: the batch counts an error. *)
Definition one_file (b : option json) : world :=
  {| cookies := [];
     service := fun _ => Some {| status_code := 200; body := b; set_cookies := [] |};
     sent := [];
     unreadable := fun _ => false;
     walk := fun d => [(d, [str "a.mp3"])] |}.

(** A service whose CSRF endpoint answers 503 and whose callback sets the
    session cookie: the first strategy stops, the second one logs in. *)
Definition csrf_down : world :=
  {| cookies := [];
     service := fun req =>
       match req_method req with
       | GET => Some {| status_code := 503; body := None; set_cookies := [] |}
       | POST => Some {| status_code := 200; body := None;
                         set_cookies := [(str "next-auth.session-token", str "tok")] |}
       end;
     sent := [];
     unreadable := fun _ => false;
     walk := fun _ => [] |}.

End UploadSpec.

Module RenameSpec.
Import Rename.

(** What [os.path.join] puts before a relative name. *)
Definition dir_prefix (d : pystr) : pystr :=
  if Py.eqb d [] || Py.endswith ["/"%char] d then d else d ++ ["/"%char].

(** The paths a run wrote to, read off the events of its log. *)
Definition writes (evs : list io_event) : list pystr :=
  flat_map (fun ev => match ev with EvWrite p => [p] | _ => [] end) evs.

Definition written (w w' : world) : list pystr :=
  writes (skipn (length (log w)) (log w')).

(** From [w] to [w'] the events [evs] took place: the log grew by them,
    paths name the same places and the listings and refusals are the same;
    a file none of the paths written names has the bytes it had, and no
    file is gone. *)
Definition effect (evs : list io_event) (w w' : world) : Prop :=
  log w' = log w ++ evs
  /\ place w' = place w /\ listing w' = listing w /\ denied w' = denied w
  /\ (forall l, (forall p, In p (writes evs) -> place w p <> l) ->
                files w' !! l = files w !! l)
  /\ (forall l, is_Some (files w !! l) -> is_Some (files w' !! l)).

(** A step from [w] to [w'] whose written paths all satisfy [Q], and a
    computation that makes such a step in every world. *)
Definition step (Q : pystr -> Prop) (w w' : world) : Prop :=
  exists evs, effect evs w w' /\ Forall Q (writes evs).

Definition keeps (Q : pystr -> Prop) {A} (m : Exc.M world A) : Prop :=
  forall w, step Q w (snd (m w)).

(** The path [rename_files] gives to the copy of [filename]. *)
Definition output_path (output_directory : pystr) (mapping : Dict.t (list pystr))
    (filename : pystr) : pystr :=
  Py.path_join output_directory
    (new_filename (fst (base_and_ext filename))
       (match_tags (fst (base_and_ext filename)) mapping)
       (snd (base_and_ext filename))).

(** The two paths the copy of an entry can be written to, the composed path
    or the entry's own name in it when it is a directory, satisfy [Q]. *)
Definition targets_in (Q : pystr -> Prop) (input_directory output_directory : pystr)
    (mapping : Dict.t (list pystr)) (filename : pystr) : Prop :=
  Q (output_path output_directory mapping filename)
  /\ Q (Py.path_join (output_path output_directory mapping filename)
                     (Py.basename (Py.path_join input_directory filename))).

(** A directory entry has no slash in its name. *)
Definition entry_names (w : world) (d : pystr) : Prop :=
  forall entries, listing w d = Some entries -> Forall (fun f => ~ In "/"%char f) entries.

(** [p.split('/')], the piece being read last character first. *)
Fixpoint components (cur s : pystr) : list pystr :=
  match s with
  | [] => [rev cur]
  | c :: s' =>
      if Ascii.eqb c "/" then rev cur :: components [] s' else components (c :: cur) s'
  end.

(** One component in the loop of [posixpath.normpath]; the components kept
    so far are held last first. *)
Definition normal_step (rooted : bool) (kept : list pystr) (comp : pystr) : list pystr :=
  if Py.eqb comp [] || Py.eqb comp (str ".") then kept
  else if negb (Py.eqb comp (str "..")) then comp :: kept
  else match kept with
       | [] => if rooted then [] else [comp]
       | last :: kept' => if Py.eqb last (str "..") then comp :: kept else kept'
       end.

(** [posixpath.normpath]: the place a path names in a file system without
    links, seen from the working directory. *)
Definition normal (p : pystr) : pystr :=
  let slashes :=
    if Py.startswith (str "//") p && negb (Py.startswith (str "///") p) then 2
    else if Py.startswith (str "/") p then 1 else 0 in
  let kept := fold_left (normal_step (negb (slashes =? 0))) (components [] p) [] in
  let path := repeat "/"%char slashes ++ Py.join (str "/") (rev kept) in
  if Py.eqb path [] then str "." else path.

(** A run with the default output directory: one tagged copy, the source
    file as it was. *)
Definition music : world :=
  {| place := normal;
     files := {[ str "music/mateo_19182 - Intro [128 bpm].mp3" := [Byte.x01; Byte.x02];
                 str "tags.json" := [] ]};
     dirs := {[ str "."; str "music" ]};
     listing := fun d => if Py.eqb d (str "music")
                         then Some [str "mateo_19182 - Intro [128 bpm].mp3"; str "cover.jpg"]
                         else None;
     denied := fun _ => false;
     log := [] |}.

Definition music_args : args :=
  {| arg_input_directory := str "music"; arg_output_directory := None;
     arg_tags_file := Some (str "tags.json") |}.

Definition music_tags (b : bytes) : parsed := Items MatcherSpec.two_items.

(** A run whose output directory is the input directory, spelled the same
    way ("d") or another way ("./d"): the copy of the first file takes the
    place of the second. *)
Definition same_directory : world :=
  {| place := normal;
     files := {[ str "d/mateo_19182 - a.mp3" := [Byte.x01];
                 str "d/a.mp3" := [Byte.x02];
                 str "tags.json" := [] ]};
     dirs := {[ str "."; str "d" ]};
     listing := fun d => if Py.eqb d (str "d")
                         then Some [str "mateo_19182 - a.mp3"; str "a.mp3"]
                         else None;
     denied := fun _ => false;
     log := [] |}.

Definition same_directory_args : args :=
  {| arg_input_directory := str "d"; arg_output_directory := Some (str "d");
     arg_tags_file := Some (str "tags.json") |}.

Definition dot_directory_args : args :=
  {| arg_input_directory := str "d"; arg_output_directory := Some (str "./d");
     arg_tags_file := Some (str "tags.json") |}.

(** A run whose input directory "d/s [a" lies in the output directory "d",
    with a tag that holds a slash: the copy of "s.mp3" is written to
    "d/s [a/b].mp3", a file of the input directory. *)
Definition inner_directory : world :=
  {| place := normal;
     files := {[ str "d/s [a/s.mp3" := [Byte.x01];
                 str "d/s [a/b].mp3" := [Byte.x02];
                 str "tags.json" := [] ]};
     dirs := {[ str "."; str "d"; str "d/s [a" ]};
     listing := fun d => if Py.eqb d (str "d/s [a")
                         then Some [str "s.mp3"; str "b].mp3"]
                         else None;
     denied := fun _ => false;
     log := [] |}.

Definition inner_directory_args : args :=
  {| arg_input_directory := str "d/s [a"; arg_output_directory := Some (str "d");
     arg_tags_file := Some (str "tags.json") |}.

Definition slash_tags (b : bytes) : parsed :=
  Items [ {| item_filename := str "s"; item_tags := [str "a/b"] |} ].

End RenameSpec.

Module IndexSpec.
Import Rename MatcherSpec.



End IndexSpec.

Module LoginSpec.
Import Upload UploadSpec.





End LoginSpec.

Module SessionSpec.
Import Upload UploadSpec LoginSpec Session.














End SessionSpec.

Module OfftopSpec.
Import Names.






End OfftopSpec.

(** * Properties *)

Ltac reassoc := repeat (rewrite <- app_assoc; cbn [app]); reflexivity.

Module PyFacts.

Lemma lower_char_idem c : Py.lower_char (Py.lower_char c) = Py.lower_char c.
Proof. destruct c as [[] [] [] [] [] [] [] []]; reflexivity. Qed.

Lemma lower_idem s : Py.lower (Py.lower s) = Py.lower s.
Proof.
  unfold Py.lower. rewrite map_map. apply map_ext. intros; apply lower_char_idem.
Qed.

Lemma eqb_eq a b : Py.eqb a b = true <-> a = b.
Proof.
  revert b. induction a as [|x a IH]; intros [|y b]; simpl; try (split; congruence).
  rewrite andb_true_iff, Ascii.eqb_eq, IH. split; [intros [-> ->]; reflexivity|].
  intros E. injection E as -> ->. auto.
Qed.

Lemma eqb_neq a b : Py.eqb a b = false <-> a <> b.
Proof. rewrite <- eqb_eq. symmetry. apply not_true_iff_false. Qed.

Lemma startswith_app p s : Py.startswith p (p ++ s) = true.
Proof. induction p; simpl; [reflexivity|]. rewrite Ascii.eqb_refl. exact IHp. Qed.

Lemma startswith_spec p s : Py.startswith p s = true <-> exists t, s = p ++ t.
Proof.
  split.
  - revert s. induction p as [|a p IH]; intros s H.
    + exists s. reflexivity.
    + destruct s as [|b s]; simpl in H; [discriminate|].
      apply andb_true_iff in H as [Hab H]. apply Ascii.eqb_eq in Hab. subst b.
      destruct (IH _ H) as [t ->]. exists t. reflexivity.
  - intros [t ->]. apply startswith_app.
Qed.

Lemma contains_nil s : Py.contains [] s = true.
Proof. destruct s; reflexivity. Qed.

Lemma contains_head p s :
  Py.contains p s = Py.startswith p s || Py.contains p (tail s).
Proof. destruct s; simpl; [destruct p|]; reflexivity. Qed.

Lemma contains_spec p s :
  Py.contains p s = true <-> exists a b, s = a ++ p ++ b.
Proof.
  split.
  - induction s as [|c s IH]; simpl; intros H.
    + rewrite orb_false_r in H. apply startswith_spec in H as [t Ht].
      exists [], t. exact Ht.
    + apply orb_true_iff in H as [H|H].
      * apply startswith_spec in H as [t Ht]. exists [], t. exact Ht.
      * destruct (IH H) as (a & b & ->). exists (c :: a), b. reflexivity.
  - intros (a & b & ->). induction a as [|c a IH]; simpl.
    + rewrite contains_head, startswith_app. reflexivity.
    + rewrite IH. apply orb_true_r.
Qed.

End PyFacts.

Module ReFacts.
Import Re Lang.

Lemma run_from_sound p st s st' :
  In st' (run_from p st s) ->
  exists w, s = w ++ rest st' /\ w <> [] /\ Forall (fun x => p x = true) w
            /\ group st' = group st.
Proof.
  revert st'. induction s as [|x s IH]; simpl; intros st' H; [contradiction|].
  destruct (p x) eqn:Hx; [|contradiction].
  apply in_app_or in H as [H|[<-|[]]].
  - destruct (IH _ H) as (w & Hs & _ & Hw & Hg).
    exists (x :: w). rewrite Hs at 1. repeat split; auto; discriminate.
  - exists [x]. simpl. repeat split; auto; discriminate.
Qed.

Lemma ms_sound icase r st st' :
  In st' (ms icase r st) -> exists w, rest st = w ++ rest st' /\ lang icase r w.
Proof.
  revert st st'. induction r as [| |c|p|r1 IH1 r2 IH2|r1 IH1 r2 IH2|r IH|p|p|r IH];
    simpl; intros st st' H.
  - destruct H as [<-|[]]. exists []. auto.
  - destruct (at_bol st); [|contradiction]. destruct H as [<-|[]]. exists []. auto.
  - unfold step_chr in H. destruct (rest st) as [|x s]; [contradiction|].
    destruct (chr_eq icase c x) eqn:E; [|contradiction].
    destruct H as [<-|[]]. exists [x]. split; [reflexivity|]. exists x. auto.
  - unfold step_chr in H. destruct (rest st) as [|x s]; [contradiction|].
    destruct (p x) eqn:E; [|contradiction].
    destruct H as [<-|[]]. exists [x]. split; [reflexivity|]. exists x. auto.
  - apply in_flat_map in H as (st1 & H1 & H2).
    destruct (IH1 _ _ H1) as (w1 & E1 & L1). destruct (IH2 _ _ H2) as (w2 & E2 & L2).
    exists (w1 ++ w2). split.
    + rewrite E1, E2. apply app_assoc.
    + exists w1, w2. auto.
  - apply in_app_or in H as [H|H].
    + destruct (IH1 _ _ H) as (w & E & L). exists w. auto.
    + destruct (IH2 _ _ H) as (w & E & L). exists w. auto.
  - apply in_app_or in H as [H|[<-|[]]].
    + destruct (IH _ _ H) as (w & E & L). exists w. auto.
    + exists []. auto.
  - apply in_app_or in H as [H|[<-|[]]].
    + destruct (run_from_sound _ _ _ _ H) as (w & E & _ & F & _). exists w. auto.
    + exists []. auto.
  - destruct (run_from_sound _ _ _ _ H) as (w & E & N & F & _). exists w. auto.
  - apply in_map_iff in H as (st1 & <- & H). simpl.
    destruct (IH _ _ H) as (w & E & L). exists w. auto.
Qed.

Lemma lang_avoids c0 r w : avoids c0 r = true -> lang false r w -> ~ In c0 w.
Proof.
  revert w. induction r as [| |c|p|r1 IH1 r2 IH2|r1 IH1 r2 IH2|r IH|p|p|r IH];
    simpl; intros w A L.
  - subst w. auto.
  - subst w. auto.
  - destruct L as (x & -> & E). apply Ascii.eqb_eq in E. subst x.
    intros [->|[]]. rewrite Ascii.eqb_refl in A. discriminate.
  - destruct L as (x & -> & E). intros [->|[]]. rewrite E in A. discriminate.
  - destruct L as (w1 & w2 & -> & L1 & L2). apply andb_true_iff in A as [A1 A2].
    intros H. apply in_app_or in H as [H|H]; [eapply IH1|eapply IH2]; eauto.
  - apply andb_true_iff in A as [A1 A2]. destruct L; eauto.
  - destruct L as [->|L]; eauto.
  - intros H. rewrite List.Forall_forall in L. apply L in H. rewrite H in A. discriminate.
  - destruct L as [_ L]. intros H. rewrite List.Forall_forall in L. apply L in H.
    rewrite H in A. discriminate.
  - eauto.
Qed.

Lemma lang_nonnull icase r w : nonnull r = true -> lang icase r w -> w <> [].
Proof.
  revert w. induction r as [| |c|p|r1 IH1 r2 IH2|r1 IH1 r2 IH2|r IH|p|p|r IH];
    simpl; intros w A L; try discriminate.
  - destruct L as (x & -> & _). discriminate.
  - destruct L as (x & -> & _). discriminate.
  - destruct L as (w1 & w2 & -> & L1 & L2). intros E.
    apply app_eq_nil in E as [-> ->].
    apply orb_true_iff in A as [A|A]; [eapply IH1|eapply IH2]; eauto.
  - apply andb_true_iff in A as [A1 A2]. destruct L; eauto.
  - tauto.
  - eauto.
Qed.

Lemma match_at_sound icase r bol s n g :
  match_at icase r bol s = Some (n, g) ->
  exists w s', s = w ++ s' /\ n = length w /\ lang icase r w.
Proof.
  unfold match_at. intros H.
  destruct (ms icase r _) as [|st' l] eqn:E; [discriminate|].
  injection H as <- <-.
  destruct (ms_sound icase r _ st' ltac:(rewrite E; left; reflexivity)) as (w & Hs & L).
  simpl in Hs. exists w, (rest st'). split; [exact Hs|]. split; [|exact L].
  rewrite Hs at 1. rewrite length_app. lia.
Qed.

Lemma bracketed_group_at body bol s n g :
  avoids "]" body = true -> nonnull body = true ->
  match_at false (bracketed body) bol s = Some (n, g) -> group_at s n.
Proof.
  intros A N H. apply match_at_sound in H as (w & s' & -> & -> & L).
  unfold bracketed in L. cbn [lang] in L.
  destruct L as (w1 & w2 & -> & (x1 & -> & E1) & w3 & w4 & -> & (x2 & -> & E2)
                 & b & w5 & -> & Lb & (x3 & -> & E3)).
  unfold chr_eq in E1, E2, E3.
  apply Ascii.eqb_eq in E1, E2, E3. subst.
  exists b, s'. repeat split.
  - simpl. rewrite <- app_assoc. reflexivity.
  - simpl. rewrite length_app. simpl. lia.
  - eapply lang_nonnull; eauto.
  - eapply lang_avoids; eauto.
Qed.

End ReFacts.

Module SubFacts.
Import Re Lang Names ReFacts.

Lemma sub_from_skip icase r k s :
  sub_from icase r false k s = sub_from icase r false 0 (skipn k s).
Proof.
  revert s. induction k as [|k IH]; intros s; [reflexivity|].
  destruct s as [|c s]; [reflexivity|]. simpl skipn. rewrite <- IH. reflexivity.
Qed.

Lemma sub_from_cons icase r bol c s :
  sub_from icase r bol 0 (c :: s) =
  match match_at icase r bol (c :: s) with
  | Some (S k, _) => sub_from icase r false k s
  | _ => c :: sub_from icase r false 0 s
  end.
Proof. reflexivity. Qed.

Lemma sub_from_match icase r bol c s k g :
  match_at icase r bol (c :: s) = Some (S k, g) ->
  sub_from icase r bol 0 (c :: s) = sub_from icase r false 0 (skipn (S k) (c :: s)).
Proof. intros H. simpl. rewrite H. apply sub_from_skip. Qed.

Lemma group_at_inv c s n :
  group_at (c :: s) n -> c = " "%char /\ exists s', s = "["%char :: s'.
Proof. intros (b & s' & E & _). injection E as -> ->. eauto. Qed.

Lemma split_at_rbracket (b b' x y : pystr) :
  b ++ "]"%char :: x = b' ++ "]"%char :: y ->
  ~ In "]"%char b -> ~ In "]"%char b' -> b = b' /\ x = y.
Proof.
  revert b'. induction b as [|c b IH]; intros [|c' b'] E Hb Hb'; simpl in *.
  - injection E as ->. auto.
  - injection E as <- _. tauto.
  - injection E as -> _. tauto.
  - injection E as -> E. destruct (IH b' E) as [-> ->]; tauto.
Qed.

Lemma skipn_group (b : pystr) c1 c2 c3 (s : pystr) :
  skipn (3 + length b) (c1 :: c2 :: (b ++ [c3]) ++ s) = s.
Proof. simpl. induction b; simpl; auto. Qed.

Section Pass.

Variable r : regex.
Hypothesis Hr : brackets_only r.

Lemma sub_from_nomatch bol c s :
  (forall n, ~ group_at (c :: s) n) ->
  sub_from false r bol 0 (c :: s) = c :: sub_from false r false 0 s.
Proof using Hr.
  intros H. simpl. destruct (match_at false r bol (c :: s)) as [[[|k] g]|] eqn:E;
    try reflexivity.
  exfalso. eapply H, Hr, E.
Qed.

Lemma sub_from_text bol t s :
  ~ In "["%char t -> no_open s ->
  exists bol', sub_from false r bol 0 (t ++ s) = t ++ sub_from false r bol' 0 s.
Proof using Hr.
  revert bol. induction t as [|c t IH]; intros bol Ht Hs.
  - exists bol. reflexivity.
  - simpl app. rewrite sub_from_nomatch.
    + destruct (IH false) as [bol' E]; [simpl in Ht; tauto|exact Hs|].
      exists bol'. rewrite E. reflexivity.
    + intros n G. apply group_at_inv in G as [_ [s' E]].
      destruct t as [|x t]; simpl in E.
      * subst s. simpl in Hs. congruence.
      * injection E as -> _. simpl in Ht. tauto.
Qed.

Local Arguments sub_from : simpl never.

Lemma no_open_flatten segs : Forall wf_body segs -> no_open (flatten segs).
Proof.
  induction 1 as [|seg segs H _ IH]; [exact I|].
  unfold flatten. simpl. fold (flatten segs).
  destruct seg as [t|w]; simpl in *.
  - destruct t as [|c t]; [exact IH|]. simpl. intros ->. apply H. left. reflexivity.
  - destruct H as (b & -> & _). simpl. discriminate.
Qed.

Lemma thinned_wf segs segs' :
  thinned segs segs' -> Forall wf_body segs -> Forall wf_body segs'.
Proof.
  induction 1 as [|seg segs segs' _ IH|w segs segs' _ IH]; intros Hwf.
  - constructor.
  - inversion Hwf; subst. constructor; auto.
  - inversion Hwf; subst. auto.
Qed.

Lemma thinned_texts segs segs' : thinned segs segs' -> texts segs' = texts segs.
Proof.
  induction 1 as [|seg segs segs' _ IH|w segs segs' _ IH]; unfold texts in *; simpl.
  - reflexivity.
  - rewrite IH. reflexivity.
  - exact IH.
Qed.

(** One substitution takes whole annotations out and leaves the rest. *)
Lemma sub_pass segs :
  Forall wf_body segs ->
  forall bol, exists segs',
    thinned segs segs' /\ sub_from false r bol 0 (flatten segs) = flatten segs'.
Proof using Hr.
  induction 1 as [|seg segs H Hsegs IH]; intros bol.
  - exists []. split; [constructor|reflexivity].
  - pose proof (no_open_flatten _ Hsegs) as Hno.
    unfold flatten. simpl. fold (flatten segs).
    destruct seg as [t|w]; simpl in *.
    + destruct (sub_from_text bol t (flatten segs) H Hno) as [bol' E].
      destruct (IH bol') as (segs' & T & E').
      exists (Text t :: segs'). split; [constructor; exact T|].
      rewrite E, E'. reflexivity.
    + destruct H as (b & -> & Hne & Hr1 & Hr2). simpl.
      destruct (match_at false r bol (" "%char :: "["%char :: (b ++ ["]"%char]) ++ flatten segs))
        as [[[|k] g]|] eqn:E.
      2:{ (* the annotation is matched: it goes as a whole *)
        pose proof (Hr _ _ _ _ E) as (b' & s' & Es & En & _ & Hb').
        injection Es as Es. rewrite <- app_assoc in Es. simpl in Es.
        apply split_at_rbracket in Es as [<- <-]; [|assumption..].
        rewrite (sub_from_match _ _ _ _ _ _ _ E).
        injection En as ->.
        replace (skipn _ _) with (flatten segs).
        - destruct (IH false) as (segs' & T & E').
          exists segs'. split; [constructor; exact T|exact E'].
        - symmetry. apply skipn_group. }
      all: (* no match here: the annotation stays as it is *)
        rewrite sub_from_cons, E;
        rewrite sub_from_nomatch
          by (intros n G; apply group_at_inv in G as [G _]; discriminate);
        destruct (sub_from_text false (b ++ ["]"%char]) (flatten segs)) as [bol' E'];
        [ intros G; apply in_app_or in G as [G|[G|[]]]; [tauto|discriminate]
        | exact Hno | ];
        destruct (IH bol') as (segs' & T & E'');
        exists (Annotation (" "%char :: "["%char :: b ++ ["]"%char]) :: segs');
        (split; [apply thinned_keep; exact T|]);
        rewrite E', E''; unfold flatten; simpl; rewrite <- !app_assoc; reflexivity.
Qed.

End Pass.

End SubFacts.

(** ** The filename normaliser *)

Module Normalizer.
Import Re Lang Names ReFacts SubFacts Rename.

Local Arguments sub_from : simpl never.

Lemma bpm_brackets_only : brackets_only bpm_tag_pattern.
Proof.
  intros bol s n g. apply (bracketed_group_at (Plus Py.isdigit · lit " bpm")); reflexivity.
Qed.

Lemma key_brackets_only : brackets_only key_tag_pattern.
Proof.
  intros bol s n g.
  apply (bracketed_group_at
           (Cls key_letter · accidental · Opt (Chr "/" · Cls key_letter · accidental)
            · Star Py.isspace
            · Alt (lit "Major") (Alt (lit "Minor") (Alt (lit "Maj") (lit "Min")))));
    reflexivity.
Qed.

Lemma any_brackets_only : brackets_only any_tag_pattern.
Proof.
  intros bol s n g. apply (bracketed_group_at (Plus not_rbracket)); reflexivity.
Qed.

Lemma lang_bracketed body w :
  avoids "]" body = true -> nonnull body = true ->
  lang false (bracketed body) w ->
  exists b, w = " "%char :: "["%char :: b ++ ["]"%char] /\ b <> [] /\ ~ In "]"%char b.
Proof.
  intros A N L. unfold bracketed in L. cbn [lang] in L.
  destruct L as (w1 & w2 & -> & (x1 & -> & E1) & w3 & w4 & -> & (x2 & -> & E2)
                 & b & w5 & -> & Lb & (x3 & -> & E3)).
  unfold chr_eq in E1, E2, E3. apply Ascii.eqb_eq in E1, E2, E3. subst.
  exists b. repeat split.
  - eapply lang_nonnull; eauto.
  - eapply lang_avoids; eauto.
Qed.

(** The three patterns cut the same shape: an annotation is a space and one
    bracketed group. *)
Lemma annotation_shape w : annotation w -> wf_body (Annotation w).
Proof.
  intros [L Ho].
  assert (exists b, w = " "%char :: "["%char :: b ++ ["]"%char]
                    /\ b <> [] /\ ~ In "]"%char b) as (b & -> & Hne & Hr).
  { destruct L as [L|[L|L]].
    - apply (lang_bracketed (Plus Py.isdigit · lit " bpm")); auto.
    - apply (lang_bracketed
               (Cls key_letter · accidental · Opt (Chr "/" · Cls key_letter · accidental)
                · Star Py.isspace
                · Alt (lit "Major") (Alt (lit "Minor") (Alt (lit "Maj") (lit "Min")))));
        auto.
    - apply (lang_bracketed (Plus not_rbracket)); auto. }
  exists b. repeat split; auto.
  intros H. apply Ho. simpl. apply in_or_app. auto.
Qed.

Lemma wf_segments segs : Forall wf_segment segs -> Forall wf_body segs.
Proof.
  induction 1 as [|seg segs H _ IH]; constructor; auto.
  destruct seg; [exact H|apply annotation_shape, H].
Qed.

Lemma run_then_chr p c (b s : pystr) st :
  Forall (fun x => p x = true) b -> p c = false -> b <> [] ->
  flat_map (ms false (Chr c)) (run_from p st (b ++ c :: s)) = [advance st s].
Proof.
  intros Hb Hc. induction Hb as [|x b Hx Hb IH]; intros Hne; [congruence|].
  change ((x :: b) ++ c :: s) with (x :: (b ++ c :: s)).
  cbn [run_from]. rewrite Hx, flat_map_app.
  destruct b as [|y b].
  - simpl. rewrite Hc. simpl. unfold step_chr. simpl.
    unfold chr_eq. rewrite Ascii.eqb_refl. reflexivity.
  - rewrite IH by discriminate. cbn [flat_map ms]. unfold step_chr. simpl.
    inversion Hb as [|? ? Hy _]; subst.
    unfold chr_eq. destruct (Ascii.eqb_spec c y) as [->|_]; [congruence|reflexivity].
Qed.

(** The generic pattern matches every bracketed group. *)
Lemma any_tag_matches bol (b s : pystr) :
  b <> [] -> ~ In "]"%char b ->
  match_at false any_tag_pattern bol (" "%char :: "["%char :: (b ++ ["]"%char]) ++ s)
  = Some (3 + length b, None).
Proof.
  intros Hne Hb. unfold match_at, any_tag_pattern.
  cbn [ms]. unfold step_chr at 2. cbn [rest chr_eq Ascii.eqb Bool.eqb flat_map app].
  unfold step_chr at 2. cbn [rest chr_eq advance Ascii.eqb Bool.eqb flat_map app group].
  rewrite app_nil_r. rewrite <- app_assoc. simpl app.
  match goal with
  | |- context [flat_map ?f ?l] =>
      change (flat_map f l) with (flat_map (ms false (Chr "]")) l)
  end.
  rewrite run_then_chr; auto.
  - simpl. f_equal. f_equal. rewrite length_app. simpl. lia.
  - apply List.Forall_forall. intros x Hx. unfold not_rbracket.
    destruct (Ascii.eqb_spec x "]") as [->|_]; [tauto|reflexivity].
Qed.

(** The last substitution takes every annotation out. *)
Lemma sub_any segs :
  Forall wf_body segs ->
  forall bol, sub_from false any_tag_pattern bol 0 (flatten segs) = texts segs.
Proof.
  induction 1 as [|seg segs H Hsegs IH]; intros bol; [reflexivity|].
  pose proof (no_open_flatten _ Hsegs) as Hno.
  unfold flatten, texts. simpl. fold (flatten segs) (texts segs).
  destruct seg as [t|w]; simpl in *.
  - destruct (sub_from_text _ any_brackets_only bol t (flatten segs) H Hno) as [bol' E].
    rewrite E, IH. reflexivity.
  - destruct H as (b & -> & Hne & Hr1 & Hr2). simpl.
    rewrite (sub_from_match _ _ _ _ _ _ _ (any_tag_matches bol b (flatten segs) Hne Hr1)).
    replace (skipn _ _) with (flatten segs) by (symmetry; apply skipn_group).
    apply IH.
Qed.

Lemma ms_literal icase l :
  forall st w s,
    l <> [] -> rest st = w ++ s ->
    Forall2 (fun c x => chr_eq icase c x = true) l w ->
    ms icase (seq (map Chr l)) st = [advance st s].
Proof.
  induction l as [|c l IH]; intros st w s Hne Hst HF; [congruence|].
  inversion HF as [|? x ? w' Hc HF']; subst.
  destruct l as [|c' l].
  - inversion HF'; subst. cbn [seq map ms]. unfold step_chr. rewrite Hst.
    cbn [app]. rewrite Hc. reflexivity.
  - change (seq (map Chr (c :: c' :: l))) with (Chr c · seq (map Chr (c' :: l))).
    cbn [ms]. unfold step_chr at 1. rewrite Hst. cbn [app]. rewrite Hc.
    cbn [flat_map]. rewrite app_nil_r.
    rewrite (IH (advance st (w' ++ s)) w' s); [reflexivity|discriminate|reflexivity|exact HF'].
Qed.

Lemma lower_matches (l pre : pystr) :
  Py.lower pre = l -> Py.lower l = l ->
  Forall2 (fun c x => chr_eq true c x = true) l pre.
Proof.
  revert l. induction pre as [|x pre IH]; intros l H Hl; simpl in H; subst l.
  - constructor.
  - simpl in Hl. injection Hl as Hx Hl. constructor.
    + unfold chr_eq. rewrite Hx. apply Ascii.eqb_refl.
    + apply IH; [reflexivity|exact Hl].
Qed.

(** The prefix goes, in any case of its letters, and only at the start. *)
Lemma prefix_not_at_start s : sub_from true prefix_pattern false 0 s = s.
Proof.
  induction s as [|c s IH]; [reflexivity|].
  assert (match_at true prefix_pattern false (c :: s) = None) as E by reflexivity.
  rewrite sub_from_cons, E, IH. reflexivity.
Qed.

Lemma sub_prefix pre s :
  Py.lower pre = str "mateo_19182 - " -> sub true prefix_pattern (pre ++ s) = s.
Proof.
  intros H.
  assert (length pre = 14) as Hlen.
  { apply (f_equal (@length _)) in H. unfold Py.lower in H. rewrite length_map in H. exact H. }
  assert (match_at true prefix_pattern true (pre ++ s) = Some (14, None)) as Hm.
  { unfold match_at, prefix_pattern, lit. cbn [ms at_bol flat_map]. rewrite app_nil_r.
    rewrite (ms_literal true (str "mateo_19182 - ") _ pre s).
    - simpl. rewrite length_app, Hlen. f_equal. f_equal. lia.
    - discriminate.
    - reflexivity.
    - apply lower_matches; [exact H|reflexivity]. }
  destruct pre as [|c pre]; [discriminate|].
  unfold sub. simpl app in *. rewrite (sub_from_match _ _ _ _ _ _ _ Hm).
  rewrite prefix_not_at_start.
  change (c :: pre ++ s) with ((c :: pre) ++ s).
  rewrite skipn_app, Hlen, Nat.sub_diag, skipn_all2 by (rewrite Hlen; lia).
  reflexivity.
Qed.

(** The four substitutions take the prefix and the annotations out, and
    nothing of the text between them. *)
Lemma clean_name_segments pre segs :
  Py.lower pre = str "mateo_19182 - " -> Forall wf_segment segs ->
  clean_name (pre ++ flatten segs) = texts segs.
Proof.
  intros Hpre Hwf. apply wf_segments in Hwf. unfold clean_name.
  rewrite sub_prefix by exact Hpre. unfold sub.
  destruct (sub_pass _ bpm_brackets_only segs Hwf true) as (segs1 & T1 & ->).
  pose proof (thinned_wf _ _ T1 Hwf) as Hwf1.
  destruct (sub_pass _ key_brackets_only segs1 Hwf1 true) as (segs2 & T2 & ->).
  pose proof (thinned_wf _ _ T2 Hwf1) as Hwf2.
  rewrite sub_any by exact Hwf2.
  rewrite (thinned_texts _ _ T2). apply (thinned_texts _ _ T1).
Qed.

(** A word the matcher accepts whole is a word of the pattern. *)
Lemma lang_of_match icase r w :
  existsb (fun st' => match rest st' with [] => true | _ => false end)
          (ms icase r {| at_bol := true; group := None; rest := w |}) = true ->
  lang icase r w.
Proof.
  intros H. apply existsb_exists in H as (st' & Hin & Hrest).
  destruct (ms_sound _ _ _ _ Hin) as (w' & E & L). simpl in E.
  destruct (rest st'); [|discriminate]. rewrite app_nil_r in E. subst w'. exact L.
Qed.


Lemma group_at_startswith s n : group_at s n -> Py.startswith (str " [") s = true.
Proof. intros (b & s' & -> & _). reflexivity. Qed.

End Normalizer.

(** ** The matcher *)

Module Matcher.
Import Rename MatcherSpec PyFacts.

Lemma set_keys {V} k (v : V) d :
  Dict.keys (Dict.set k v d)
  = if Dict.mem k d then Dict.keys d else Dict.keys d ++ [k].
Proof.
  unfold Dict.mem. induction d as [|[k' v'] d IH]; simpl; [reflexivity|].
  destruct (Py.eqb k' k) eqn:E; simpl; [reflexivity|].
  rewrite IH. destruct (Dict.get k d); reflexivity.
Qed.

Lemma set_folded k v d :
  folded d -> k <> [] -> Py.lower k = k -> folded (Dict.set k v d).
Proof.
  unfold folded. intros Hd Hk Hl. rewrite set_keys.
  destruct (Dict.mem k d); [exact Hd|].
  apply Forall_app. split; [exact Hd|]. constructor; [auto|constructor].
Qed.

Lemma load_items_folded data d : folded d -> folded (load_items data d).
Proof.
  revert d. induction data as [|it data IH]; intros d Hd; simpl; [exact Hd|].
  apply IH. destruct (Py.eqb _ []) eqn:E; simpl; [exact Hd|].
  apply set_folded; [exact Hd| |apply lower_idem].
  apply eqb_neq. exact E.
Qed.

(** The keys of the tag index are non-empty and lower-cased. *)
Lemma tag_index_folded data : folded (tag_index data).
Proof. apply load_items_folded. constructor. Qed.

Lemma get_find base_name d :
  folded d ->
  Dict.get (Py.lower base_name) d = option_map snd (List.find (same_name base_name) d).
Proof.
  unfold folded. induction d as [|[k v] d IH]; simpl; intros H; [reflexivity|].
  inversion H as [|? ? [_ Hk] Hd]; subst.
  unfold same_name at 1. simpl. rewrite Hk.
  destruct (Py.eqb k (Py.lower base_name)); [reflexivity|]. apply IH, Hd.
Qed.

Lemma partial_match_find base_name d :
  partial_match base_name d
  = match List.find (related base_name) d with Some entry => snd entry | None => [] end.
Proof.
  induction d as [|[k v] d IH]; simpl; [reflexivity|].
  unfold related at 1. simpl.
  destruct (_ || _); [reflexivity|exact IH].
Qed.

Lemma mem_keys {V} k (d : Dict.t V) : Dict.mem k d = true <-> In k (Dict.keys d).
Proof.
  unfold Dict.mem. induction d as [|[k' v'] d IH]; simpl; [split; [discriminate|tauto]|].
  destruct (Py.eqb k' k) eqn:E.
  - apply eqb_eq in E. split; auto.
  - apply eqb_neq in E. rewrite IH. split; [auto|intros [H|H]; [contradiction|exact H]].
Qed.

Lemma fresh_spec seen y : fresh seen y = true <-> ~ In y seen.
Proof.
  unfold fresh. rewrite negb_true_iff. split.
  - intros H Hin. apply not_true_iff_false in H. apply H.
    apply existsb_exists. exists y. split; [exact Hin|apply eqb_eq; reflexivity].
  - intros H. apply not_true_iff_false. intros E.
    apply existsb_exists in E as (x & Hx & E). apply eqb_eq in E. subst. auto.
Qed.

Lemma filter_fresh_seen seen k l :
  In k seen ->
  List.filter (fresh seen) (List.filter (fun y => negb (Py.eqb y k)) l)
  = List.filter (fresh seen) l.
Proof.
  intros Hk. induction l as [|y l IH]; simpl; [reflexivity|].
  destruct (Py.eqb y k) eqn:E; simpl.
  - apply eqb_eq in E. subst y.
    destruct (fresh seen k) eqn:F; [|exact IH].
    apply fresh_spec in F. contradiction.
  - rewrite IH. reflexivity.
Qed.

Lemma filter_fresh_snoc seen k l :
  List.filter (fresh (seen ++ [k])) l
  = List.filter (fresh seen) (List.filter (fun y => negb (Py.eqb y k)) l).
Proof.
  induction l as [|y l IH]; simpl; [reflexivity|].
  unfold fresh at 1. rewrite existsb_app. simpl. rewrite orb_false_r, negb_orb.
  fold (fresh seen y).
  destruct (Py.eqb y k); simpl.
  - rewrite andb_false_r. exact IH.
  - rewrite andb_true_r. rewrite IH. reflexivity.
Qed.

Lemma load_items_keys data d :
  Dict.keys (load_items data d)
  = Dict.keys d ++ List.filter (fresh (Dict.keys d)) (first_occurrences (keyed data)).
Proof.
  revert d. induction data as [|it data IH]; intros d; simpl.
  - rewrite app_nil_r. reflexivity.
  - unfold keyed. simpl. fold (key_of it). fold (keyed data).
    destruct (Py.eqb (key_of it) []) eqn:E; simpl; [apply IH|].
    rewrite IH, set_keys.
    destruct (Dict.mem (key_of it) d) eqn:M.
    + apply mem_keys in M.
      destruct (fresh (Dict.keys d) (key_of it)) eqn:F.
      * apply fresh_spec in F. contradiction.
      * rewrite filter_fresh_seen by exact M. reflexivity.
    + assert (fresh (Dict.keys d) (key_of it) = true) as ->.
      { apply fresh_spec. intros H. apply mem_keys in H. congruence. }
      rewrite filter_fresh_snoc, <- app_assoc. reflexivity.
Qed.

(** The index keeps its keys in the order the mapping file first names them. *)
Lemma tag_index_keys data :
  Dict.keys (tag_index data) = first_occurrences (keyed data).
Proof.
  unfold tag_index. rewrite load_items_keys. simpl.
  induction (first_occurrences (keyed data)) as [|y l IH]; simpl; [reflexivity|].
  f_equal. exact IH.
Qed.

(** C3. On every tag index the mapping file can load, the tags the renamer
    finds for a base name are those of the resolution order of the
    specification: the entry whose key equals the base name up to case if
    there is one; otherwise the first entry, in the stored order, whose key
    is a substring of the base name or has it as a substring, up to case;
    otherwise no tag.  The stored order is the order in which the mapping
    file first names each key. *)
Theorem match_tags_resolution (data : list item) (base_name : pystr) :
  match_tags base_name (tag_index data) = resolve base_name (tag_index data)
  /\ Dict.keys (tag_index data) = first_occurrences (keyed data).
Proof.
  split; [|apply tag_index_keys].
  unfold match_tags, resolve.
  rewrite get_find by apply tag_index_folded.
  destruct (List.find (same_name base_name) (tag_index data)) as [[k v]|]; simpl.
  - reflexivity.
  - apply partial_match_find.
Qed.

Lemma get_empty d : folded d -> Dict.get (Py.lower []) d = None.
Proof.
  unfold folded. induction d as [|[k v] d IH]; simpl; intros Hf; [reflexivity|].
  inversion Hf as [|? ? [Hk _] Hd]; subst.
  destruct (Py.eqb k []) eqn:E; [apply eqb_eq in E; contradiction|].
  apply IH, Hd.
Qed.

(** C9. An empty base name finds no key by the exact lookup, and the partial
    match returns the tags of the first entry of the index: the empty string
    is contained in every key. *)
Theorem empty_base_name_first_entry
    (data : list item) (filename key : pystr) (tags : list pystr)
    (others : Dict.t (list pystr)) :
  tag_index data = (key, tags) :: others ->
  fst (base_and_ext filename) = [] ->
  Dict.get (Py.lower (fst (base_and_ext filename))) (tag_index data) = None
  /\ partial_match (fst (base_and_ext filename)) (tag_index data) = tags
  /\ match_tags (fst (base_and_ext filename)) (tag_index data) = tags.
Proof.
  intros Hidx Hbase. rewrite Hbase.
  pose proof (get_empty _ (tag_index_folded data)) as Hget.
  assert (partial_match [] (tag_index data) = tags) as Hpart.
  { rewrite Hidx. simpl. rewrite contains_nil, orb_true_r. reflexivity. }
  repeat split; auto.
  unfold match_tags. rewrite Hget. exact Hpart.
Qed.

(** A name of prefix, blanks and one annotation has the empty base name. *)
Lemma empty_base_name_example :
  tag_index two_items
  = [(str "intro", [str "Dark"; str "Cinematic"]); (str "outro", [str "Bright"])]
  /\ fst (base_and_ext (str "mateo_19182 -   [128 bpm].mp3")) = []
  /\ match_tags (fst (base_and_ext (str "mateo_19182 -   [128 bpm].mp3")))
                (tag_index two_items)
     = [str "Dark"; str "Cinematic"].
Proof.
  split; [reflexivity|]. split; [reflexivity|].
  exact (proj2 (proj2 (empty_base_name_first_entry two_items
                         (str "mateo_19182 -   [128 bpm].mp3") (str "intro")
                         [str "Dark"; str "Cinematic"] [(str "outro", [str "Bright"])]
                         eq_refl eq_refl))).
Defined.

End Matcher.

(** ** The composed filename *)

Module Composer.
Import Rename Names.

Lemma join_brackets tag tags :
  str " " ++ Py.join (str " ") (map (fun tag => str "[" ++ tag ++ str "]") (tag :: tags))
  = concat (map bracket_group (tag :: tags)).
Proof.
  revert tag. induction tags as [|t tags IH]; intros tag.
  - simpl. rewrite app_nil_r. reflexivity.
  - change (Py.join (str " ") (map ?f (tag :: t :: tags)))
      with (f tag ++ str " " ++ Py.join (str " ") (map f (t :: tags))).
    cbn beta. rewrite IH. simpl. rewrite <- !app_assoc. reflexivity.
Qed.

Lemma new_filename_concat base_name tags extension :
  new_filename base_name tags extension
  = base_name ++ concat (map bracket_group tags) ++ extension.
Proof.
  destruct tags as [|tag tags]; [reflexivity|].
  unfold new_filename. rewrite <- join_brackets.
  rewrite <- !app_assoc. reflexivity.
Qed.

(** C7. The new filename is the base name, then one [ \[tag\]] group for
    each tag, in the order of the tag list, then the extension; with no tag
    it is the base name and the extension alone.  This is the name under which
    the file is copied into the output directory. *)
Theorem new_filename_format (base_name extension : pystr) :
  (forall tags,
      new_filename base_name tags extension
      = base_name ++ concat (map (fun tag => str " [" ++ tag ++ str "]") tags) ++ extension)
  /\ new_filename base_name [] extension = base_name ++ extension
  /\ new_filename base_name [str "Dark"; str "Cinematic"] extension
     = base_name ++ str " [Dark] [Cinematic]" ++ extension
  /\ (forall input_directory output_directory mapping filename,
         base_and_ext filename = (base_name, extension) ->
         rename_file input_directory output_directory mapping filename
         = copy2 (Py.path_join input_directory filename)
             (Py.path_join output_directory
                (new_filename base_name (match_tags base_name mapping) extension))).
Proof.
  split; [intros tags; apply new_filename_concat|].
  split; [reflexivity|]. split; [reflexivity|].
  intros input_directory output_directory mapping filename E.
  unfold rename_file. rewrite E. reflexivity.
Qed.

End Composer.

(** ** Paths and extensions *)

Module PathFacts.
Import PyFacts.

Lemma rfind_from_notin c i s : ~ In c s -> Py.rfind_from c i s = (-1)%Z.
Proof.
  revert i. induction s as [|x s IH]; intros i H; simpl; [reflexivity|].
  rewrite IH by (simpl in H; tauto). simpl.
  destruct (Ascii.eqb_spec x c) as [->|_]; [|reflexivity].
  exfalso. apply H. left. reflexivity.
Qed.

Lemma rfind_from_range c i s :
  (0 <= i)%Z ->
  Py.rfind_from c i s = (-1)%Z
  \/ (i <= Py.rfind_from c i s < i + Z.of_nat (length s))%Z.
Proof.
  revert i. induction s as [|x s IH]; intros i Hi; simpl; [auto|].
  destruct (IH (i + 1)%Z ltac:(lia)) as [E|E].
  - rewrite E. simpl. destruct (Ascii.eqb x c); [right; lia|auto].
  - destruct (Z.eqb_spec (Py.rfind_from c (i + 1) s) (-1)) as [E'|_]; [lia|].
    right. lia.
Qed.

Lemma rfind_from_app c i (l1 l2 : pystr) :
  Py.rfind_from c i (l1 ++ l2)
  = if (Py.rfind_from c (i + Z.of_nat (length l1)) l2 =? -1)%Z
    then Py.rfind_from c i l1
    else Py.rfind_from c (i + Z.of_nat (length l1)) l2.
Proof.
  revert i. induction l1 as [|x l1 IH]; intros i.
  - simpl. rewrite Z.add_0_r. destruct (Z.eqb_spec (Py.rfind_from c i l2) (-1)); auto.
  - cbn [app Py.rfind_from length]. rewrite IH.
    replace (i + 1 + Z.of_nat (length l1))%Z with (i + Z.of_nat (S (length l1)))%Z by lia.
    destruct (Z.eqb_spec (Py.rfind_from c (i + Z.of_nat (S (length l1))) l2) (-1)) as [E|E].
    + reflexivity.
    + apply Z.eqb_neq in E. rewrite E. reflexivity.
Qed.

(** The last occurrence, when [c] is the first character of a tail that holds
    it nowhere else. *)
Lemma rfind_last c (n e : pystr) :
  ~ In c e -> Py.rfind c (n ++ c :: e) = Z.of_nat (length n).
Proof.
  intros H. unfold Py.rfind. rewrite rfind_from_app. cbn [Py.rfind_from].
  rewrite rfind_from_notin by exact H. simpl. rewrite Ascii.eqb_refl.
  rewrite Z.add_0_l.
  destruct (Z.eqb_spec (Z.of_nat (length n)) (-1)); [lia|reflexivity].
Qed.

Lemma splitext_parts p : fst (Py.splitext p) ++ snd (Py.splitext p) = p.
Proof.
  unfold Py.splitext.
  destruct (_ <? _)%Z; [|apply app_nil_r].
  destruct (existsb _ _); [apply firstn_skipn|apply app_nil_r].
Qed.

(** A name that ends in a dot and dot-free characters has these as its
    extension, or none when only dots come before. *)
Lemma splitext_tail (n e : pystr) :
  ~ In "."%char e ->
  Py.splitext (n ++ "."%char :: e) = (n, "."%char :: e)
  \/ Py.splitext (n ++ "."%char :: e) = (n ++ "."%char :: e, []).
Proof.
  intros H. unfold Py.splitext. rewrite rfind_last by exact H.
  destruct (_ <? _)%Z; [|auto].
  destruct (existsb _ _); [|auto].
  left. rewrite Nat2Z.id.
  rewrite firstn_app, firstn_all, Nat.sub_diag, skipn_app, skipn_all, Nat.sub_diag.
  simpl. rewrite app_nil_r. reflexivity.
Qed.

Lemma basename_join (out name : pystr) :
  ~ In "/"%char name -> Py.basename (Py.path_join out name) = name.
Proof.
  intros H. unfold Py.path_join.
  destruct (Py.startswith ["/"%char] name) eqn:E.
  { destruct name as [|c name]; [discriminate|]. cbn [Py.startswith] in E.
    rewrite andb_true_r in E. apply Ascii.eqb_eq in E. subst c.
    exfalso. apply H. left. reflexivity. }
  assert (forall d : pystr, Py.basename (d ++ "/"%char :: name) = name) as Hsep.
  { intros d. unfold Py.basename. rewrite rfind_last by exact H.
    replace (Z.to_nat (Z.of_nat (length d) + 1)) with (length d + 1) by lia.
    rewrite skipn_app, skipn_all2 by lia.
    replace (length d + 1 - length d) with 1 by lia. reflexivity. }
  destruct (Py.eqb out [] || Py.endswith ["/"%char] out) eqn:E'; [|apply Hsep].
  apply orb_true_iff in E' as [E'|E'].
  - apply eqb_eq in E'. subst out. unfold Py.basename, Py.rfind. simpl.
    rewrite rfind_from_notin by exact H. reflexivity.
  - unfold Py.endswith in E'. apply startswith_spec in E' as [t Ht].
    apply (f_equal (@rev _)) in Ht. rewrite rev_involutive, rev_app_distr in Ht.
    simpl in Ht. subst out. rewrite <- app_assoc. apply Hsep.
Qed.

End PathFacts.

(** ** Audio names keep their extension through the normaliser *)

Module AudioNames.
Import Re Lang Names ReFacts SubFacts Rename PyFacts PathFacts Normalizer.

Local Arguments sub_from : simpl never.

Lemma lower_char_dot a : Py.lower_char a = "."%char -> a = "."%char.
Proof.
  intros H. destruct a as [[] [] [] [] [] [] [] []]; vm_compute in H;
    try discriminate H; reflexivity.
Qed.

Lemma lower_char_plain x c :
  Py.lower_char x = c -> ~ special c -> ~ special x.
Proof.
  intros H Hc [-> | [-> | [-> | ->]]]; apply Hc; rewrite <- H; unfold special; auto.
Qed.

Lemma audio_extension_tail e ext :
  In ext audio_extensions -> Py.lower e = ext -> audio_tail e.
Proof.
  assert (forall c, In c (str "mp3wav4") -> ~ special c) as plain.
  { intros c Hc [-> | [-> | [-> | ->]]]; simpl in Hc; intuition discriminate. }
  intros Hin He.
  destruct e as [|a [|x [|y [|z [|? ?]]]]];
    try (simpl in Hin, He; subst ext; intuition discriminate).
  exists x, y, z.
  assert (Py.lower_char a = "."%char
          /\ In (Py.lower_char x) (str "mp3wav4") /\ In (Py.lower_char y) (str "mp3wav4")
          /\ In (Py.lower_char z) (str "mp3wav4")) as (Ha & Hx & Hy & Hz).
  { simpl in Hin, He. subst ext.
    destruct Hin as [H|[H|[H|[]]]]; injection H as <- <- <- <-; simpl; tauto. }
  apply lower_char_dot in Ha. subst a.
  repeat split; eauto using lower_char_plain.
Qed.

Lemma is_audio_tail f :
  is_audio f = true -> exists n e, f = n ++ e /\ audio_tail e.
Proof.
  unfold is_audio. intros H. apply existsb_exists in H as (ext & Hin & H).
  unfold Py.endswith in H. apply startswith_spec in H as [t Ht].
  apply (f_equal (@rev _)) in Ht. rewrite rev_involutive, rev_app_distr, rev_involutive in Ht.
  unfold Py.lower in Ht. apply map_eq_app in Ht as (n & e & -> & _ & He).
  exists n, e. split; [reflexivity|]. eapply audio_extension_tail; eauto.
Qed.

Lemma audio_tail_chars e c : audio_tail e -> special c -> c <> "."%char -> ~ In c e.
Proof.
  intros (x & y & z & -> & Hx & Hy & Hz) Hc Hdot [H|[H|[H|[H|[]]]]]; subst; auto.
Qed.

Lemma app_split_notin (l1 l2 n e : pystr) c :
  l1 ++ c :: l2 = n ++ e -> ~ In c e -> exists b, n = l1 ++ c :: b /\ l2 = b ++ e.
Proof.
  revert n. induction l1 as [|x l1 IH]; intros [|y n] E H; simpl in *.
  - subst e. exfalso. apply H. left. reflexivity.
  - injection E as -> ->. exists n. auto.
  - subst e. exfalso. apply H. right. apply in_or_app. right. left. reflexivity.
  - injection E as -> E. destruct (IH n E H) as (b & -> & ->). exists b. auto.
Qed.

Section Tail.

Variable r : regex.
Hypothesis Hr : brackets_only r.
Variable e : pystr.
Hypotheses (Hopen : ~ In "["%char e) (Hclose : ~ In "]"%char e).

(** A substitution of bracketed groups leaves a bracket-free tail alone. *)
Lemma sub_keeps_tail k :
  forall n bol, length n <= k ->
    exists n', sub_from false r bol 0 (n ++ e) = n' ++ e /\ (forall c, In c n' -> In c n).
Proof using Hr Hopen Hclose.
  induction k as [|k IH]; intros n bol Hlen.
  - destruct n; [|simpl in Hlen; lia]. exists []. split; [|auto].
    destruct (sub_from_text r Hr bol e [] Hopen I) as [bol' E].
    rewrite app_nil_r in E. simpl. rewrite E. apply app_nil_r.
  - destruct n as [|c n]; [apply (IH [] bol); simpl; lia|].
    simpl in Hlen. cbn [app]. rewrite sub_from_cons.
    destruct (match_at false r bol (c :: n ++ e)) as [[[|j] g]|] eqn:E.
    2:{ pose proof (Hr _ _ _ _ E) as (b & s' & Es & En & _ & _).
        change (c :: n ++ e) with ((c :: n) ++ e) in Es.
        change (" "%char :: "["%char :: b ++ "]"%char :: s')
          with ((" "%char :: "["%char :: b) ++ "]"%char :: s') in Es.
        symmetry in Es. apply app_split_notin in Es as (b' & En' & ->); [|exact Hclose].
        rewrite sub_from_skip.
        replace (skipn j (n ++ e)) with (b' ++ e).
        - destruct (IH b' false) as (n' & E' & Hsub).
          { apply (f_equal (@length _)) in En'. simpl in En'.
            rewrite length_app in En'. simpl in En'. lia. }
          exists n'. split; [exact E'|]. intros x Hx. rewrite En'.
          apply in_or_app. right. right. apply Hsub, Hx.
        - injection En as ->. injection En' as -> ->.
          cbn [app skipn]. rewrite <- app_assoc.
          clear. induction b; simpl; auto. }
    all: destruct (IH n false ltac:(lia)) as (n' & E' & Hsub);
      exists (c :: n'); rewrite E'; split; [reflexivity|];
      intros x [->|Hx]; [left; reflexivity|right; apply Hsub, Hx].
Qed.

End Tail.

Lemma lang_literal icase l :
  forall w, l <> [] -> lang icase (seq (map Chr l)) w ->
            Forall2 (fun c x => chr_eq icase c x = true) l w.
Proof.
  induction l as [|c l IH]; intros w Hne L; [congruence|].
  destruct l as [|c' l].
  - cbn [seq map lang] in L. destruct L as (x & -> & E). repeat constructor. exact E.
  - change (seq (map Chr (c :: c' :: l))) with (Chr c · seq (map Chr (c' :: l))) in L.
    cbn [lang] in L. destruct L as (w1 & w2 & -> & (x & -> & E) & L).
    constructor; [exact E|]. apply IH; [discriminate|exact L].
Qed.

Lemma matches_lower (l w : pystr) :
  Forall2 (fun c x => chr_eq true c x = true) l w -> Py.lower w = Py.lower l.
Proof.
  induction 1 as [|c x l w E _ IH]; [reflexivity|].
  simpl. unfold chr_eq in E. apply Ascii.eqb_eq in E. rewrite E, IH. reflexivity.
Qed.

(** The first substitution returns the name, or the name without a prefix
    that reads "mateo_19182 - " when lower-cased. *)
Lemma sub_prefix_cases f :
  sub true prefix_pattern f = f
  \/ exists pre, Py.lower pre = str "mateo_19182 - " /\ f = pre ++ sub true prefix_pattern f.
Proof.
  destruct f as [|c s]; [left; reflexivity|].
  unfold sub. rewrite sub_from_cons.
  destruct (match_at true prefix_pattern true (c :: s)) as [[[|k] g]|] eqn:E;
    try (left; rewrite prefix_not_at_start; reflexivity).
  right. apply match_at_sound in E as (w & s' & Es & En & L).
  unfold prefix_pattern in L. cbn [lang] in L.
  destruct L as (w1 & w2 & -> & -> & L). cbn [app] in Es, En. unfold lit in L.
  apply lang_literal in L; [|discriminate]. apply matches_lower in L.
  exists w2. split; [exact L|].
  rewrite sub_from_skip, prefix_not_at_start.
  change (skipn k s) with (skipn (S k) (c :: s)).
  rewrite Es, En, skipn_app, skipn_all, Nat.sub_diag. reflexivity.
Qed.

Lemma prefix_keeps_tail n e :
  audio_tail e ->
  exists n', sub true prefix_pattern (n ++ e) = n' ++ e /\ (forall c, In c n' -> In c n).
Proof.
  intros He. destruct (sub_prefix_cases (n ++ e)) as [->|(pre & Hpre & E)]; [eauto|].
  apply app_eq_app in E as [l [[-> E]|[-> E]]].
  - exists l. split; [exact E|]. intros c Hc. apply in_or_app. auto.
  - destruct He as (x & y & z & -> & _). destruct l as [|d l].
    + simpl in E. exists []. split; [symmetry; exact E|]. intros c [].
    + injection E as <- _. exfalso.
      unfold Py.lower in Hpre. rewrite map_app in Hpre.
      assert (In "."%char (str "mateo_19182 - ")) as Hin.
      { rewrite <- Hpre. apply in_or_app. right. left. reflexivity. }
      simpl in Hin. intuition discriminate.
Qed.

Lemma sub_from_subset icase r c :
  forall s bol k, In c (sub_from icase r bol k s) -> In c s.
Proof.
  induction s as [|x s IH]; intros bol k H; [exact H|].
  destruct k as [|k].
  - rewrite sub_from_cons in H.
    destruct (match_at icase r bol (x :: s)) as [[[|j] g]|];
      try (destruct H as [->|H]; [left; reflexivity|right; eapply IH, H]).
    right. eapply IH, H.
  - right. eapply IH. exact H.
Qed.

(** The cleaned name of an audio file still ends in its extension. *)
Lemma clean_name_tail f :
  is_audio f = true ->
  exists n e, clean_name f = n ++ e /\ audio_tail e.
Proof.
  intros H. apply is_audio_tail in H as (n0 & e & -> & He).
  assert (~ In "["%char e) as Ho by (apply audio_tail_chars; unfold special; auto; discriminate).
  assert (~ In "]"%char e) as Hc by (apply audio_tail_chars; unfold special; auto; discriminate).
  unfold clean_name.
  destruct (prefix_keeps_tail n0 e He) as (n1 & -> & _). unfold sub.
  destruct (sub_keeps_tail _ bpm_brackets_only e Ho Hc _ n1 true (le_n _)) as (n2 & -> & _).
  destruct (sub_keeps_tail _ key_brackets_only e Ho Hc _ n2 true (le_n _)) as (n3 & -> & _).
  destruct (sub_keeps_tail _ any_brackets_only e Ho Hc _ n3 true (le_n _)) as (n4 & -> & _).
  eauto.
Qed.

(** So the extension of an audio file is its last four characters, or empty
    when the cleaned name is dots alone before them. *)
Lemma audio_base_and_ext f :
  is_audio f = true ->
  exists n e, clean_name f = n ++ e /\ audio_tail e
              /\ (base_and_ext f = (Py.strip n, e)
                  \/ base_and_ext f = (Py.strip (n ++ e), [])).
Proof.
  intros H. destruct (clean_name_tail f H) as (n & e & E & He).
  exists n, e. split; [exact E|]. split; [exact He|].
  unfold base_and_ext. rewrite E.
  destruct He as (x & y & z & -> & Hx & Hy & Hz).
  destruct (splitext_tail n [x; y; z]) as [->| ->]; auto.
  intros [-> | [-> | [-> | []]]]; [apply Hx|apply Hy|apply Hz]; left; reflexivity.
Qed.

End AudioNames.

(** ** From the renamer to the upload client *)

Module RoundTrip.
Import Re Lang Names MatcherSpec ReFacts PyFacts PathFacts AudioNames Rename Composer.

Local Arguments findall_from : simpl never.

Lemma findall_from_cons r bol c s :
  findall_from r bol 0 (c :: s) =
  match match_at false r bol (c :: s) with
  | Some (S k, g) => default [] g :: findall_from r false k s
  | _ => findall_from r false 0 s
  end.
Proof. reflexivity. Qed.

Lemma findall_from_skip r k s :
  findall_from r false k s = findall_from r false 0 (skipn k s).
Proof.
  revert s. induction k as [|k IH]; intros s; [reflexivity|].
  destruct s as [|c s]; [reflexivity|]. simpl skipn. rewrite <- IH. reflexivity.
Qed.

Lemma run_then_chr_map (G : mstate -> mstate) p c (b s : pystr) st :
  (forall x, rest (G x) = rest x) ->
  Forall (fun x => p x = true) b -> p c = false -> b <> [] ->
  flat_map (ms false (Chr c)) (map G (run_from p st (b ++ c :: s)))
  = [advance (G (advance st (c :: s))) s].
Proof.
  intros HG Hb Hc. induction Hb as [|x b Hx Hb IH]; intros Hne; [congruence|].
  change ((x :: b) ++ c :: s) with (x :: (b ++ c :: s)).
  cbn [run_from]. rewrite Hx, map_app, flat_map_app.
  destruct b as [|y b].
  - cbn [app run_from]. rewrite Hc. cbn [map flat_map app ms]. unfold step_chr.
    rewrite HG. cbn [advance rest]. unfold chr_eq. rewrite Ascii.eqb_refl. reflexivity.
  - rewrite IH by discriminate. cbn [map flat_map ms]. unfold step_chr.
    rewrite HG. cbn [advance rest app].
    inversion Hb as [|? ? Hy _]; subst.
    unfold chr_eq. destruct (Ascii.eqb_spec c y) as [->|_]; [congruence|reflexivity].
Qed.

(** The pattern of the upload client matches a bracketed group and returns
    its body. *)
Lemma tag_pattern_matches bol (b s : pystr) :
  b <> [] -> ~ In "]"%char b ->
  match_at false Upload.tag_pattern bol ("["%char :: b ++ "]"%char :: s)
  = Some (2 + length b, Some b).
Proof.
  intros Hne Hb. unfold match_at, Upload.tag_pattern.
  cbn [ms]. unfold step_chr at 2. cbn [rest chr_eq Ascii.eqb Bool.eqb flat_map app advance].
  rewrite app_nil_r.
  match goal with
  | |- context [flat_map ?f (map ?G ?l)] =>
      change (flat_map f (map G l)) with (flat_map (ms false (Chr "]")) (map G l))
  end.
  rewrite run_then_chr_map; auto.
  - cbn [advance rest group length]. f_equal. f_equal.
    + rewrite length_app. simpl. lia.
    + f_equal. replace (_ - _) with (length b) by (rewrite length_app; simpl; lia).
      rewrite firstn_app, firstn_all, Nat.sub_diag. simpl. apply app_nil_r.
  - apply List.Forall_forall. intros x Hx. unfold not_rbracket.
    destruct (Ascii.eqb_spec x "]") as [->|_]; [tauto|reflexivity].
Qed.

Lemma tag_pattern_needs_bracket bol c s :
  c <> "["%char -> match_at false Upload.tag_pattern bol (c :: s) = None.
Proof.
  intros Hc. unfold match_at, Upload.tag_pattern. cbn [ms]. unfold step_chr at 2.
  cbn [rest chr_eq].
  destruct (Ascii.eqb_spec "[" c) as [E|_]; [congruence|reflexivity].
Qed.

Lemma findall_text t s :
  ~ In "["%char t ->
  forall bol, exists bol',
    findall_from Upload.tag_pattern bol 0 (t ++ s)
    = findall_from Upload.tag_pattern bol' 0 s.
Proof.
  induction t as [|c t IH]; intros Ht bol; [eauto|].
  cbn [app]. rewrite findall_from_cons, tag_pattern_needs_bracket.
  - apply IH. simpl in Ht. tauto.
  - intros ->. apply Ht. left. reflexivity.
Qed.

Lemma findall_group bol (b s : pystr) :
  b <> [] -> ~ In "]"%char b ->
  findall_from Upload.tag_pattern bol 0 ("["%char :: b ++ "]"%char :: s)
  = b :: findall_from Upload.tag_pattern false 0 s.
Proof.
  intros Hne Hb. rewrite findall_from_cons, tag_pattern_matches by assumption.
  cbn [Nat.add default]. f_equal. rewrite findall_from_skip. f_equal.
  clear. induction b; simpl; auto.
Qed.

Lemma findall_groups tags ext :
  Forall sound_tag tags -> ~ In "["%char ext ->
  forall bol,
    findall_from Upload.tag_pattern bol 0 (concat (map bracket_group tags) ++ ext) = tags.
Proof.
  intros Htags Hext. induction Htags as [|tag tags (Hne & Hclose & _) _ IH]; intros bol.
  - simpl. destruct (findall_text ext [] Hext bol) as [bol' E].
    rewrite app_nil_r in E. rewrite E. reflexivity.
  - cbn [map concat]. unfold bracket_group at 1. rewrite <- !app_assoc.
    change (str " [" ++ ?x) with (" "%char :: "["%char :: x).
    rewrite findall_from_cons, tag_pattern_needs_bracket by discriminate.
    change (str "]" ++ ?x) with ("]"%char :: x).
    rewrite findall_group by assumption. f_equal. apply IH.
Qed.

Lemma drop_while_subset p s c : In c (Py.drop_while p s) -> In c s.
Proof.
  induction s as [|x s IH]; simpl; [auto|].
  destruct (p x); [right; auto|auto].
Qed.

Lemma strip_subset s c : In c (Py.strip s) -> In c s.
Proof.
  unfold Py.strip, Py.rstrip, Py.lstrip. intros H.
  apply in_rev, drop_while_subset, in_rev, drop_while_subset in H. exact H.
Qed.

Lemma clean_name_subset f c : In c (clean_name f) -> In c f.
Proof.
  unfold clean_name, sub. intros H.
  repeat apply sub_from_subset in H. exact H.
Qed.

(** What an audio file's base name and extension are made of. *)
Lemma base_and_ext_chars f :
  is_audio f = true ->
  (forall c, In c (fst (base_and_ext f)) -> In c f)
  /\ ~ In "["%char (snd (base_and_ext f))
  /\ ~ In "/"%char (snd (base_and_ext f)).
Proof.
  intros H. destruct (audio_base_and_ext f H) as (n & e & E & He & [-> | ->]); simpl.
  - split; [|split].
    + intros c Hc. apply strip_subset in Hc. apply clean_name_subset. rewrite E.
      apply in_or_app. auto.
    + apply audio_tail_chars; unfold special; auto; discriminate.
    + apply audio_tail_chars; unfold special; auto; discriminate.
  - split; [|auto]. intros c Hc. apply strip_subset in Hc.
    apply clean_name_subset. rewrite E. exact Hc.
Qed.

(** C2, as the code has it.  For the name of an audio file in the input
    directory, the tags the upload client extracts from the path the renamer
    copies the file to are the tags the matcher found, provided the base name
    holds no opening bracket and every tag is non-empty and holds neither a
    closing bracket nor a slash. *)
Theorem extract_tags_of_renamed
    (mapping : Dict.t (list pystr)) (output_directory filename : pystr) :
  is_audio filename = true ->
  ~ In "/"%char filename ->
  ~ In "["%char (fst (base_and_ext filename)) ->
  Forall sound_tag (match_tags (fst (base_and_ext filename)) mapping) ->
  Upload.extract_tags
    (Py.path_join output_directory
       (new_filename (fst (base_and_ext filename))
          (match_tags (fst (base_and_ext filename)) mapping)
          (snd (base_and_ext filename))))
  = match_tags (fst (base_and_ext filename)) mapping.
Proof.
  intros Haudio Hslash Hopen Htags.
  destruct (base_and_ext_chars filename Haudio) as (Hbase & Hext & Hext').
  set (base_name := fst (base_and_ext filename)) in *.
  set (extension := snd (base_and_ext filename)) in *.
  set (tags := match_tags base_name mapping) in *.
  unfold Upload.extract_tags. rewrite basename_join.
  - rewrite new_filename_concat. unfold findall.
    destruct (findall_text base_name (concat (map bracket_group tags) ++ extension)
                Hopen true) as [bol' ->].
    apply findall_groups; assumption.
  - rewrite new_filename_concat. intros H.
    apply in_app_or in H as [H|H]; [apply Hslash, Hbase, H|].
    apply in_app_or in H as [H|H]; [|contradiction].
    apply in_concat in H as (g & Hg & H). apply in_map_iff in Hg as (tag & <- & Htag).
    rewrite List.Forall_forall in Htags. destruct (Htags _ Htag) as (_ & _ & Hs).
    unfold bracket_group in H. apply in_app_or in H as [H|H].
    + simpl in H. intuition discriminate.
    + apply in_app_or in H as [H|H]; [contradiction|].
      simpl in H. intuition discriminate.
Qed.

Lemma extract_tags_of_renamed_intro :
  is_audio (str "mateo_19182 - Intro [128 bpm].mp3") = true
  /\ new_filename (str "Intro") [str "Dark"; str "Cinematic"] (str ".mp3")
     = str "Intro [Dark] [Cinematic].mp3"
  /\ Upload.extract_tags (str "out/Intro [Dark] [Cinematic].mp3")
     = [str "Dark"; str "Cinematic"].
Proof.
  split; [reflexivity|]. split; [reflexivity|].
  refine (extract_tags_of_renamed intro_index (str "out")
            (str "mateo_19182 - Intro [128 bpm].mp3") eq_refl _ _ _).
  - simpl. intuition discriminate.
  - simpl. intuition discriminate.
  - repeat constructor; simpl; try discriminate; intuition discriminate.
Defined.

(** A bracketed group that no space precedes stays in the base name, and the
    upload client reads it as one more tag.  A tag with a closing bracket is
    read back cut, an empty tag is not read back, and a tag with a slash is
    not part of the file's name. *)
Lemma extract_tags_of_renamed_differs :
  is_audio (str "Intro[demo].mp3") = true
  /\ base_and_ext (str "Intro[demo].mp3") = (str "Intro[demo]", str ".mp3")
  /\ match_tags (str "Intro[demo]") intro_index = [str "Dark"; str "Cinematic"]
  /\ new_filename (str "Intro[demo]") [str "Dark"; str "Cinematic"] (str ".mp3")
     = str "Intro[demo] [Dark] [Cinematic].mp3"
  /\ Upload.extract_tags (Py.path_join (str "out") (str "Intro[demo] [Dark] [Cinematic].mp3"))
     = [str "demo"; str "Dark"; str "Cinematic"]
  /\ Upload.extract_tags
       (Py.path_join (str "out")
          (new_filename (fst (base_and_ext (str "Intro[demo].mp3")))
             (match_tags (fst (base_and_ext (str "Intro[demo].mp3"))) intro_index)
             (snd (base_and_ext (str "Intro[demo].mp3")))))
     <> match_tags (fst (base_and_ext (str "Intro[demo].mp3"))) intro_index
  /\ Upload.extract_tags
       (Py.path_join (str "out") (new_filename (str "Outro") [str "a]b"] (str ".mp3")))
     = [str "a"]
  /\ Upload.extract_tags
       (Py.path_join (str "out") (new_filename (str "Outro") [str ""] (str ".mp3")))
     = []
  /\ Upload.extract_tags
       (Py.path_join (str "out") (new_filename (str "Outro") [str "Hip/Hop"] (str ".mp3")))
     = [].
Proof.
  repeat split; try reflexivity. vm_compute. discriminate.
Qed.

End RoundTrip.

(** ** Brackets that no space precedes *)

Module Brackets.
Import Re Lang Names ReFacts SubFacts PyFacts PathFacts AudioNames Rename Normalizer.

Local Arguments sub_from : simpl never.

Section Head.

Variable r : regex.
Hypothesis Hr : brackets_only r.

(** A substitution leaves alone the head of a name up to a character other
    than a space, when no space stands before an opening bracket in it. *)
Lemma sub_keeps_head (q : pystr) c (b : pystr) :
  Py.contains (str " [") (q ++ [c]) = false -> c <> " "%char ->
  forall bol, exists b', sub_from false r bol 0 ((q ++ [c]) ++ b) = (q ++ [c]) ++ b'.
Proof using Hr.
  induction q as [|x q IH]; intros H Hc bol.
  - cbn [app]. rewrite (sub_from_nomatch r Hr); [eauto|].
    intros n G. apply group_at_inv in G as [G _]. contradiction.
  - rewrite contains_head in H. apply orb_false_iff in H as [H1 H2]. cbn [tail app] in H2.
    cbn [app]. rewrite (sub_from_nomatch r Hr).
    + destruct (IH H2 Hc false) as [b' E]. exists b'. rewrite E. reflexivity.
    + intros n G. apply group_at_inv in G as [-> [s' E]].
      destruct q as [|y q]; cbn [app] in E; injection E as -> _; discriminate.
Qed.

End Head.

Lemma drop_while_keeps p (a : pystr) x (s : pystr) :
  p x = false -> exists a', Py.drop_while p (a ++ x :: s) = a' ++ x :: s.
Proof.
  intros Hx. induction a as [|c a [a' IH]]; simpl.
  - rewrite Hx. exists []. reflexivity.
  - destruct (p c); [eauto|]. exists (c :: a). reflexivity.
Qed.

Lemma strip_keeps (a m b : pystr) x y :
  Py.isspace x = false -> Py.isspace y = false ->
  exists a' b', Py.strip (a ++ (x :: m ++ [y]) ++ b) = a' ++ (x :: m ++ [y]) ++ b'.
Proof.
  intros Hx Hy. unfold Py.strip, Py.lstrip, Py.rstrip.
  cbn [app]. destruct (drop_while_keeps Py.isspace a x ((m ++ [y]) ++ b) Hx) as [a' ->].
  replace (a' ++ x :: (m ++ [y]) ++ b) with ((a' ++ x :: m) ++ y :: b)
    by (rewrite <- !app_assoc; reflexivity).
  rewrite rev_app_distr. cbn [rev]. rewrite <- app_assoc. cbn [app].
  destruct (drop_while_keeps Py.isspace (rev b) y (rev (a' ++ x :: m)) Hy) as [b' ->].
  exists a', (rev b'). rewrite rev_app_distr. cbn [rev]. rewrite rev_involutive.
  rewrite <- !app_assoc. reflexivity.
Qed.

(** The three substitutions keep the head of the name. *)
Lemma clean_name_head filename (q : pystr) c (b : pystr) :
  sub true prefix_pattern filename = (q ++ [c]) ++ b ->
  Py.contains (str " [") (q ++ [c]) = false -> c <> " "%char ->
  exists b', clean_name filename = (q ++ [c]) ++ b'.
Proof.
  intros E H Hc. unfold clean_name. rewrite E. unfold sub.
  destruct (sub_keeps_head _ bpm_brackets_only q c b H Hc true) as [b1 ->].
  destruct (sub_keeps_head _ key_brackets_only q c b1 H Hc true) as [b2 ->].
  destruct (sub_keeps_head _ any_brackets_only q c b2 H Hc true) as [b3 ->].
  eauto.
Qed.

(** C10, as the code has it.  Each of the three bracket patterns matches
    only where a space stands immediately before the opening bracket.  So a
    bracketed group of the name (after the prefix is gone) survives the three
    substitutions when, up to and including this group, no space stands before
    an opening bracket: a group at the start of the name or after another
    character.  It is then part of the base name used for matching and of the
    composed filename. *)
Theorem group_without_space_survives (filename a body b : pystr) :
  (forall r, In r [bpm_tag_pattern; key_tag_pattern; any_tag_pattern] ->
             forall bol s n g, match_at false r bol s = Some (n, g) ->
                               Py.startswith (str " [") s = true)
  /\ (is_audio filename = true ->
      sub true prefix_pattern filename = a ++ ("["%char :: body ++ ["]"%char]) ++ b ->
      Py.contains (str " [") (a ++ "["%char :: body ++ ["]"%char]) = false ->
      (exists b', clean_name filename = a ++ ("["%char :: body ++ ["]"%char]) ++ b')
      /\ Py.contains ("["%char :: body ++ ["]"%char]) (fst (base_and_ext filename)) = true
      /\ (forall tags,
             Py.contains ("["%char :: body ++ ["]"%char])
               (new_filename (fst (base_and_ext filename)) tags
                  (snd (base_and_ext filename)))
             = true)).
Proof.
  assert (forall r, In r [bpm_tag_pattern; key_tag_pattern; any_tag_pattern] ->
                    brackets_only r) as Hpat.
  { intros r [<-|[<-|[<-|[]]]];
      [apply bpm_brackets_only|apply key_brackets_only|apply any_brackets_only]. }
  split.
  { intros r Hr bol s n g E. eapply group_at_startswith, Hpat; eauto. }
  intros Haudio Hname Hfree.
  replace (a ++ ("["%char :: body ++ ["]"%char]) ++ b)
    with (((a ++ "["%char :: body) ++ ["]"%char]) ++ b) in Hname
    by reassoc.
  replace (a ++ "["%char :: body ++ ["]"%char])
    with ((a ++ "["%char :: body) ++ ["]"%char]) in Hfree
    by reassoc.
  destruct (clean_name_head filename _ _ _ Hname Hfree ltac:(discriminate)) as [b' Hclean].
  split.
  { exists b'. rewrite Hclean. reassoc. }
  destruct (audio_base_and_ext filename Haudio) as (n & e & E & He & Hbase).
  assert (~ In "]"%char e) as Hclose
      by (apply audio_tail_chars; unfold special; auto; discriminate).
  rewrite Hclean in E. rewrite <- app_assoc in E. cbn [app] in E.
  apply app_split_notin in E as (b'' & -> & ->); [|exact Hclose].
  assert (exists a' c', fst (base_and_ext filename)
                        = a' ++ ("["%char :: body ++ ["]"%char]) ++ c') as (a' & c' & Hfst).
  { destruct Hbase as [-> | ->]; cbn [fst].
    - replace ((a ++ "["%char :: body) ++ "]"%char :: b'')
        with (a ++ ("["%char :: body ++ ["]"%char]) ++ b'')
        by reassoc.
      apply strip_keeps; reflexivity.
    - replace (((a ++ "["%char :: body) ++ "]"%char :: b'') ++ e)
        with (a ++ ("["%char :: body ++ ["]"%char]) ++ (b'' ++ e))
        by reassoc.
      apply strip_keeps; reflexivity. }
  split.
  - apply contains_spec. eauto.
  - intros tags. apply contains_spec. rewrite Composer.new_filename_concat, Hfst.
    exists a'. eexists. reassoc.
Qed.

(** A bracketed group at the start and one after a letter stay in the base
    name; the one after a space goes. *)
Lemma group_without_space_survives_example :
  base_and_ext (str "mateo_19182 - [128 bpm] Intro[Dark] [x].mp3")
  = (str "[128 bpm] Intro[Dark]", str ".mp3")
  /\ Py.contains (str "[Dark]")
       (fst (base_and_ext (str "mateo_19182 - [128 bpm] Intro[Dark] [x].mp3"))) = true.
Proof.
  split; [reflexivity|].
  exact (proj1 (proj2 (proj2
    (group_without_space_survives (str "mateo_19182 - [128 bpm] Intro[Dark] [x].mp3")
       (str "[128 bpm] Intro") (str "Dark") (str " [x].mp3")) eq_refl eq_refl eq_refl))).
Defined.

(** A group that follows another directly is not preceded by a space, and is
    removed all the same once the removal of the first leaves a space before
    it. *)
Lemma group_without_space_removed :
  str "Intro  [128 bpm][Dark].mp3" = str "Intro  [128 bpm]" ++ str "[Dark]" ++ str ".mp3"
  /\ sub false bpm_tag_pattern (str "Intro  [128 bpm][Dark].mp3") = str "Intro [Dark].mp3"
  /\ clean_name (str "Intro  [128 bpm][Dark].mp3") = str "Intro.mp3"
  /\ base_and_ext (str "Intro  [128 bpm][Dark].mp3") = (str "Intro", str ".mp3")
  /\ Py.contains (str "[Dark]") (fst (base_and_ext (str "Intro  [128 bpm][Dark].mp3")))
     = false.
Proof. repeat split; reflexivity. Qed.

End Brackets.

(** ** Annotated names *)

Module Annotated.
Import Re Lang Names ReFacts SubFacts PyFacts PathFacts Rename Normalizer.

Lemma drop_while_blank p (l s : pystr) :
  Forall (fun c => p c = true) l -> Py.drop_while p (l ++ s) = Py.drop_while p s.
Proof. induction 1 as [|c l Hc _ IH]; simpl; [reflexivity|]. rewrite Hc. exact IH. Qed.

Lemma drop_while_stop p (s : pystr) :
  match s with c :: _ => p c = false | [] => True end -> Py.drop_while p s = s.
Proof. destruct s as [|c s]; simpl; [reflexivity|]. intros ->. reflexivity. Qed.

(** Trimming takes the blanks around a base name, and nothing of it. *)
Lemma strip_blank (lead b trail : pystr) :
  blank lead -> blank trail ->
  match b with c :: _ => Py.isspace c = false | [] => True end ->
  match rev b with c :: _ => Py.isspace c = false | [] => True end ->
  Py.strip (lead ++ b ++ trail) = b.
Proof.
  intros Hl Ht Hb Hr. unfold Py.strip, Py.lstrip, Py.rstrip.
  rewrite drop_while_blank by exact Hl.
  destruct b as [|c b].
  - cbn [app]. pose proof (drop_while_blank Py.isspace trail [] Ht) as E.
    rewrite app_nil_r in E. rewrite E. reflexivity.
  - rewrite (drop_while_stop _ ((c :: b) ++ trail)) by exact Hb.
    rewrite rev_app_distr, drop_while_blank by (apply Forall_rev, Ht).
    rewrite drop_while_stop by exact Hr. apply rev_involutive.
Qed.

(** [os.path.splitext] cuts at the last dot when a character that is no dot
    stands before it and no slash is about. *)
Lemma splitext_ext (root x : pystr) :
  ~ In "/"%char root -> ~ In "/"%char x -> ~ In "."%char x ->
  (exists c, In c root /\ c <> "."%char) ->
  Py.splitext (root ++ "."%char :: x) = (root, "."%char :: x).
Proof.
  intros Hr Hx Hd (c & Hc & Hn). unfold Py.splitext.
  rewrite rfind_last by exact Hd.
  assert (Py.rfind "/" (root ++ "."%char :: x) = (-1)%Z) as ->.
  { apply rfind_from_notin. intros H. apply in_app_or in H as [H|[H|H]];
      [auto|discriminate|auto]. }
  destruct (Z.ltb_spec (-1) (Z.of_nat (length root))) as [_|?]; [|lia].
  unfold Py.slice. rewrite Nat2Z.id. change (Z.to_nat (-1 + 1)) with 0%nat.
  rewrite Nat.sub_0_r.
  replace (skipn 0 (root ++ "."%char :: x)) with (root ++ "."%char :: x) by reflexivity.
  rewrite !firstn_app, !firstn_all, Nat.sub_diag, firstn_O, app_nil_r.
  assert (existsb (fun c => negb (Ascii.eqb c ".")) root = true) as ->.
  { apply existsb_exists. exists c. split; [exact Hc|].
    apply negb_true_iff. destruct (Ascii.eqb_spec c "."); congruence. }
  rewrite skipn_app, skipn_all, Nat.sub_diag. reflexivity.
Qed.

Lemma blank_no_slash (s : pystr) : blank s -> ~ In "/"%char s.
Proof.
  intros H Hin. unfold blank in H. rewrite List.Forall_forall in H.
  apply H in Hin. discriminate.
Qed.

(** C4, as the code does it.  Take a filename made of the prefix, in any
    letter case, of plain text without an opening bracket, and of
    annotations: words of the three bracket patterns (BPM, musical key,
    generic tag) with no further opening bracket inside.  The substitutions
    remove the prefix and the annotations, and nothing else; the base name
    is what [os.path.splitext] gives for the rest, trimmed.  When what is
    left is a base name between blanks and an extension, the base name and
    the extension of the file are these: the blanks are trimmed, and the
    extension split off. *)
Theorem normalize_annotated (pre : pystr) (segs : list segment) :
  Py.lower pre = str "mateo_19182 - " ->
  Forall wf_segment segs ->
  clean_name (pre ++ flatten segs) = texts segs
  /\ base_and_ext (pre ++ flatten segs)
     = (Py.strip (fst (Py.splitext (texts segs))), snd (Py.splitext (texts segs)))
  /\ (forall lead base trail ext,
         texts segs = lead ++ base ++ trail ++ ext ->
         blank lead -> blank trail -> base_text base -> extension_text ext ->
         base_and_ext (pre ++ flatten segs) = (base, ext)).
Proof.
  intros Hpre Hwf. pose proof (clean_name_segments pre segs Hpre Hwf) as E.
  split; [exact E|]. split.
  { unfold base_and_ext. rewrite E. destruct (Py.splitext (texts segs)); reflexivity. }
  intros lead base trail ext Ht Hl Hr (Hdot & Hslash & Hhd & Hlast) (x & -> & Hx & Hxs).
  unfold base_and_ext. rewrite E, Ht.
  replace (lead ++ base ++ trail ++ "."%char :: x)
    with ((lead ++ base ++ trail) ++ "."%char :: x) by (rewrite <- !app_assoc; reflexivity).
  rewrite splitext_ext; [|intros H|exact Hxs|exact Hx|].
  - rewrite strip_blank by assumption. reflexivity.
  - apply in_app_or in H as [H|H]; [exact (blank_no_slash _ Hl H)|].
    apply in_app_or in H as [H|H]; [exact (Hslash H)|exact (blank_no_slash _ Hr H)].
  - destruct Hdot as (c & Hc & Hn). exists c. split; [|exact Hn].
    apply in_or_app. right. apply in_or_app. left. exact Hc.
Qed.

Lemma notin_forallb c (s : pystr) :
  forallb (fun x => negb (Ascii.eqb c x)) s = true -> ~ In c s.
Proof.
  intros H Hin. rewrite forallb_forall in H. apply H in Hin.
  rewrite Ascii.eqb_refl in Hin. discriminate.
Qed.

Lemma intro_segments_wf : Forall wf_segment intro_segments.
Proof.
  unfold intro_segments. repeat apply List.Forall_cons; try apply List.Forall_nil.
  - apply notin_forallb. reflexivity.
  - split; [|apply notin_forallb; reflexivity].
    left. apply lang_of_match. vm_compute. reflexivity.
  - split; [|apply notin_forallb; reflexivity].
    right. left. apply lang_of_match. vm_compute. reflexivity.
  - split; [|apply notin_forallb; reflexivity].
    right. right. apply lang_of_match. vm_compute. reflexivity.
  - apply notin_forallb. reflexivity.
Qed.

(** The example of the specification. *)
Lemma normalize_annotated_intro :
  Forall wf_segment intro_segments
  /\ clean_name (str "mateo_19182 - Intro [128 bpm] [C Major] [Dark].mp3") = str "Intro.mp3"
  /\ base_and_ext (str "mateo_19182 - Intro [128 bpm] [C Major] [Dark].mp3")
     = (str "Intro", str ".mp3").
Proof.
  split; [exact intro_segments_wf|].
  destruct (normalize_annotated (str "mateo_19182 - ") intro_segments
              eq_refl intro_segments_wf) as (Hclean & _ & Hbase).
  split; [exact Hclean|].
  apply (Hbase [] (str "Intro") [] (str ".mp3")).
  - reflexivity.
  - constructor.
  - constructor.
  - repeat split; try reflexivity.
    + exists "I"%char. split; [left; reflexivity|discriminate].
    + apply notin_forallb. reflexivity.
  - exists (str "mp3"). repeat split; apply notin_forallb; reflexivity.
Defined.

(** Names outside these conditions.  In "X [x [1 bpm].mp3" the word
    " [x [1 bpm]" is a word of the generic pattern, and only its end is
    removed.  In "Intro  [128 bpm][Dark].mp3" the BPM annotation is removed,
    and with it a blank and the group "[Dark]", which no pattern matches in
    the name.  In "Intro[Dark].mp3" the bracketed group stays. *)
Lemma normalize_annotated_outside :
  (lang false any_tag_pattern (str " [x [1 bpm]")
   /\ flatten nested_segments = str "X [x [1 bpm].mp3"
   /\ texts nested_segments = str "X.mp3"
   /\ clean_name (str "mateo_19182 - " ++ flatten nested_segments) = str "X [x.mp3"
   /\ clean_name (str "mateo_19182 - " ++ flatten nested_segments) <> texts nested_segments)
  /\ (lang false bpm_tag_pattern (str " [128 bpm]")
      /\ flatten adjacent_segments = str "Intro  [128 bpm][Dark].mp3"
      /\ texts adjacent_segments = str "Intro [Dark].mp3"
      /\ clean_name (str "mateo_19182 - " ++ flatten adjacent_segments) = str "Intro.mp3"
      /\ clean_name (str "mateo_19182 - " ++ flatten adjacent_segments)
         <> texts adjacent_segments
      /\ base_and_ext (str "mateo_19182 - " ++ flatten adjacent_segments)
         = (str "Intro", str ".mp3"))
  /\ clean_name (str "mateo_19182 - Intro[Dark].mp3") = str "Intro[Dark].mp3"
  /\ base_and_ext (str "mateo_19182 - Intro[Dark].mp3") = (str "Intro[Dark]", str ".mp3").
Proof.
  split; [|split; [|split]].
  - split; [apply lang_of_match; vm_compute; reflexivity|].
    repeat split; try (vm_compute; reflexivity). vm_compute. discriminate.
  - split; [apply lang_of_match; vm_compute; reflexivity|].
    repeat split; try (vm_compute; reflexivity). vm_compute. discriminate.
  - vm_compute. reflexivity.
  - vm_compute. reflexivity.
Qed.

End Annotated.

(** ** The upload batch *)

Module Batch.
Import Exc Upload UploadSpec.

Lemma send_same req w : same_service w (snd (send req w)).
Proof. unfold send. destruct (service w req); simpl; repeat split. Qed.

(** One upload returns, does not raise, and its result is the JSON body of a
    200 or 201 answer, [None] in every other case. *)
Lemma upload_file_result file_path api_url w :
  exists w',
    upload_file file_path api_url w
    = (Return (match answer w api_url file_path with
               | Some r => if ok_status (status_code r) then body r else None
               | None => None
               end), w')
    /\ same_service w w'.
Proof.
  unfold upload_file, open_rb, json_of, try_except, bind, gets, ret, raise, answer.
  destruct (unreadable w file_path) eqn:U; simpl.
  { exists w. repeat split. }
  pose proof (send_same (upload_request api_url file_path) w) as Hs.
  unfold send in *. destruct (service w (upload_request api_url file_path)) as [r|]; simpl in *.
  - unfold ok_status. destruct ((status_code r =? 200)%Z || (status_code r =? 201)%Z); simpl.
    + destruct (body r); simpl; eauto.
    + eauto.
  - eauto.
Qed.

Lemma same_service_answer w w' api_url f :
  same_service w w' -> answer w' api_url f = answer w api_url f.
Proof. intros (Hs & Hu & _). unfold answer. rewrite Hs, Hu. reflexivity. Qed.

Lemma same_service_trans w1 w2 w3 :
  same_service w1 w2 -> same_service w2 w3 -> same_service w1 w3.
Proof.
  intros (A1 & A2 & A3) (B1 & B2 & B3). repeat split; congruence.
Qed.

Lemma counted_result w api_url f :
  result_truthy (match answer w api_url f with
                 | Some r => if ok_status (status_code r) then body r else None
                 | None => None
                 end)
  = counted w api_url f.
Proof.
  unfold counted. destruct (answer w api_url f) as [r|]; [|reflexivity].
  destruct (ok_status (status_code r)); reflexivity.
Qed.

(** The loop adds to its counters the files it counts and the others. *)
Lemma upload_loop_counts api_url files :
  forall counts w,
  exists w',
    upload_loop api_url files counts w
    = (Return (fst counts + length (List.filter (counted w api_url) files),
               snd counts + length (List.filter (fun f => negb (counted w api_url f)) files)),
       w')
    /\ same_service w w'.
Proof.
  induction files as [|f files IH]; intros [s e] w; simpl.
  - exists w. rewrite !Nat.add_0_r. repeat split.
  - unfold bind.
    destruct (upload_file_result f api_url w) as (w1 & -> & Hw1).
    match goal with |- context [upload_loop api_url files ?c w1] =>
      destruct (IH c w1) as (w2 & -> & Hw2) end.
    exists w2. split; [|eapply same_service_trans; eauto].
    assert (List.filter (counted w1 api_url) files = List.filter (counted w api_url) files) as ->.
    { apply filter_ext. intros x. unfold counted. rewrite (same_service_answer w w1); auto. }
    assert (List.filter (fun x => negb (counted w1 api_url x)) files
            = List.filter (fun x => negb (counted w api_url x)) files) as ->.
    { apply filter_ext. intros x. unfold counted. rewrite (same_service_answer w w1); auto. }
    rewrite counted_result.
    destruct (counted w api_url f); simpl; rewrite ?Nat.add_succ_r; reflexivity.
Qed.

(** C1, as the code has it.  A batch over a directory returns, without
    raising, the pair of the files it accepts and of the others, and attempts
    every audio file the walk finds.  A file is accepted when it can be opened
    and its request is answered 200 or 201 with a body that is JSON; it is an
    error when it cannot be opened, when the request raises, when the status
    is another one, and when the body of a 200 or 201 is not JSON.  The
    statement is for services whose accepted answers carry a payload Python
    takes for true. *)
Theorem upload_directory_counts (directory_path api_url : pystr) (w : world) :
  payloads_truthy w api_url (audio_files (walk w directory_path)) ->
  exists w',
    upload_directory directory_path api_url w
    = (Return
         (length (List.filter (accepted w api_url) (audio_files (walk w directory_path))),
          length (List.filter (fun f => negb (accepted w api_url f))
                    (audio_files (walk w directory_path)))),
       w')
    /\ length (List.filter (accepted w api_url) (audio_files (walk w directory_path)))
       + length (List.filter (fun f => negb (accepted w api_url f))
                   (audio_files (walk w directory_path)))
       = length (audio_files (walk w directory_path)).
Proof.
  intros Hp. unfold upload_directory, bind, gets.
  destruct (upload_loop_counts api_url (audio_files (walk w directory_path)) (0, 0) w)
    as (w' & -> & _).
  assert (forall f, In f (audio_files (walk w directory_path)) ->
                    counted w api_url f = accepted w api_url f) as Hsame.
  { intros f Hf. unfold counted, accepted.
    destruct (answer w api_url f) as [r|] eqn:E; [|reflexivity].
    destruct (ok_status (status_code r)) eqn:S; [|reflexivity].
    destruct (body r) as [j|] eqn:B; [|reflexivity].
    simpl. rewrite (Hp f r j Hf E S B). reflexivity. }
  exists w'. simpl. split.
  - rewrite (filter_ext_in _ _ _ Hsame).
    rewrite (filter_ext_in (fun f => negb (counted w api_url f))
               (fun f => negb (accepted w api_url f)));
      [reflexivity|intros f Hf; rewrite Hsame; auto].
  - generalize (audio_files (walk w directory_path)). intros l.
    induction l as [|f l IH]; simpl; [reflexivity|].
    destruct (accepted w api_url f); simpl; lia.
Qed.

Lemma eight_files_truthy api_url :
  payloads_truthy eight_files api_url (audio_files (walk eight_files (str "music"))).
Proof.
  intros f r j Hf Ha _ Hb. unfold answer in Ha. simpl in Ha.
  simpl in Hf.
  repeat (destruct Hf as [<-|Hf];
          [vm_compute in Ha; injection Ha as <-; vm_compute in Hb;
           try discriminate Hb; injection Hb as <-; reflexivity|]).
  contradiction.
Qed.

(** The example of the specification: five successes and three failures. *)
Lemma upload_directory_counts_5_3 :
  fst (upload_directory (str "music") (str "http://localhost:3001/api/upload") eight_files)
  = Return (5, 3).
Proof.
  destruct (upload_directory_counts (str "music") (str "http://localhost:3001/api/upload")
              eight_files (eight_files_truthy _)) as (w' & E & _).
  rewrite E. reflexivity.
Defined.

Lemma upload_directory_200_not_counted :
  (forall b, option_map status_code
               (answer (one_file b) (str "http://localhost:3001/api/upload") (str "music/a.mp3"))
             = Some 200%Z)
  /\ fst (upload_directory (str "music") (str "http://localhost:3001/api/upload")
            (one_file None)) = Return (0, 1)
  /\ fst (upload_directory (str "music") (str "http://localhost:3001/api/upload")
            (one_file (Some (JObj [])))) = Return (0, 1).
Proof. repeat split; reflexivity. Qed.

End Batch.

(** ** Authentication *)

Module Auth.
Import Exc Upload UploadSpec.

Section Strategies.

Variables (api_base_url email password : pystr).

Lemma login_nextauth_returns w :
  returns (login_nextauth api_base_url email password) w.
Proof.
  unfold returns, login_nextauth, try_except.
  destruct (login_nextauth_body api_base_url email password w) as [[a|e] w']; eauto.
Qed.

Lemma login_direct_returns w :
  returns (login_direct api_base_url email password) w.
Proof.
  unfold returns, login_direct, try_except.
  destruct (login_direct_body api_base_url email password w) as [[a|e] w']; eauto.
Qed.

(** The second strategy is tried in the world the first one leaves, whenever
    the first one gives no token. *)
Lemma login_falls_through w w1 token :
  login_nextauth api_base_url email password w = (Return token, w1) ->
  token_truthy token = false ->
  login api_base_url email password w = login_direct api_base_url email password w1.
Proof.
  intros E Ht. unfold login, try_except, bind. rewrite E, Ht.
  destruct (login_direct_returns w1) as (a & w2 & ->). reflexivity.
Qed.

(** C5. [login] never raises.  When the CSRF fetch is answered with a status
    other than 200 the first strategy gives no token after that one request,
    without a sign-in request, and the second strategy is then run: the
    requests of the login are the CSRF fetch and the direct callback.  An
    exception raised inside a strategy makes this strategy give no token: of
    the first, [login] goes on with the second; of the second, [login] gives
    no token.  A request that fails at the network level is such an
    exception. *)
Theorem login_strategies (w : world) :
  returns (login api_base_url email password) w
  /\ (forall r,
        service w (csrf_request api_base_url) = Some r -> status_code r <> 200%Z ->
        let w1 := record_request (csrf_request api_base_url) (store_cookies (set_cookies r) (cookies w)) w in
        login_nextauth api_base_url email password w = (Return None, w1)
        /\ login api_base_url email password w = login_direct api_base_url email password w1
        /\ sent (snd (login api_base_url email password w))
           = sent w ++ [csrf_request api_base_url;
                       direct_request api_base_url email password])
  /\ (forall e w1,
        login_nextauth_body api_base_url email password w = (Raise e, w1) ->
        login_nextauth api_base_url email password w = (Return None, w1)
        /\ login api_base_url email password w = login_direct api_base_url email password w1)
  /\ (forall e w1 w2,
        login_nextauth api_base_url email password w = (Return None, w1) ->
        login_direct_body api_base_url email password w1 = (Raise e, w2) ->
        login_direct api_base_url email password w1 = (Return None, w2)
        /\ login api_base_url email password w = (Return None, w2))
  /\ (service w (csrf_request api_base_url) = None ->
      login_nextauth_body api_base_url email password w
      = (Raise ConnectionError, record_request (csrf_request api_base_url) (cookies w) w))
  /\ (forall w1,
        service w1 (direct_request api_base_url email password) = None ->
        login_direct_body api_base_url email password w1
        = (Raise ConnectionError,
           record_request (direct_request api_base_url email password) (cookies w1) w1)).
Proof.
  split; [|split; [|split; [|split; [|split]]]].
  - unfold returns, login, try_except, bind.
    destruct (login_nextauth_returns w) as (t & w1 & ->).
    destruct (token_truthy t); [unfold ret; eauto|].
    destruct (login_direct_returns w1) as (a & w2 & ->). eauto.
  - intros r Hr Hs w1.
    assert (login_nextauth api_base_url email password w = (Return None, w1)) as E.
    { unfold login_nextauth, login_nextauth_body, session_get, try_except, bind, send.
      fold (csrf_request api_base_url). rewrite Hr.
      apply Z.eqb_neq in Hs. rewrite Hs. reflexivity. }
    split; [exact E|]. split; [apply (login_falls_through _ _ _ E); reflexivity|].
    rewrite (login_falls_through _ _ _ E) by reflexivity.
    unfold login_direct, login_direct_body, session_post, try_except, bind, send, gets, ret.
    fold (direct_request api_base_url email password).
    destruct (service w1 (direct_request api_base_url email password)); simpl; rewrite <- app_assoc; reflexivity.
  - intros e w1 E.
    assert (login_nextauth api_base_url email password w = (Return None, w1)) as E'.
    { unfold login_nextauth, try_except. rewrite E. reflexivity. }
    split; [exact E'|]. apply (login_falls_through _ _ _ E'). reflexivity.
  - intros e w1 w2 E1 E2.
    assert (login_direct api_base_url email password w1 = (Return None, w2)) as E'.
    { unfold login_direct, try_except. rewrite E2. reflexivity. }
    split; [exact E'|].
    rewrite (login_falls_through _ _ _ E1) by reflexivity. exact E'.
  - intros Hr. unfold login_nextauth_body, session_get, bind, send.
    fold (csrf_request api_base_url). rewrite Hr. reflexivity.
  - intros w1 Hr. unfold login_direct_body, session_post, bind, send.
    fold (direct_request api_base_url email password). rewrite Hr. reflexivity.
Qed.

End Strategies.

Lemma login_strategies_csrf_down :
  login (str "http://localhost:3001") (str "me@example.com") (str "secret") csrf_down
  = login_direct (str "http://localhost:3001") (str "me@example.com") (str "secret")
      (record_request (csrf_request (str "http://localhost:3001")) [] csrf_down)
  /\ fst (login (str "http://localhost:3001") (str "me@example.com") (str "secret") csrf_down)
     = Return (Some (str "tok")).
Proof.
  split; [|reflexivity].
  exact (proj1 (proj2 (proj1 (proj2
    (login_strategies (str "http://localhost:3001") (str "me@example.com") (str "secret")
       csrf_down))
    {| status_code := 503; body := None; set_cookies := [] |} eq_refl
    ltac:(discriminate)))).
Defined.

End Auth.

(** ** The copies of the renamer *)

Module Copies.
Import Exc Rename RenameSpec PyFacts PathFacts.

Lemma path_join_prefix d x :
  Py.startswith ["/"%char] x = false -> Py.path_join d x = dir_prefix d ++ x.
Proof.
  intros H. unfold Py.path_join, dir_prefix. rewrite H.
  destruct (Py.eqb d [] || Py.endswith ["/"%char] d); [reflexivity|].
  rewrite <- app_assoc. reflexivity.
Qed.

Lemma no_slash_start x : ~ In "/"%char x -> Py.startswith ["/"%char] x = false.
Proof.
  intros H. destruct x as [|c x]; [reflexivity|]. cbn [Py.startswith].
  destruct (Ascii.eqb_spec "/" c) as [E|_]; [|reflexivity].
  exfalso. apply H. left. auto.
Qed.

Lemma rfind_from_none c i s :
  (0 <= i)%Z -> Py.rfind_from c i s = (-1)%Z -> ~ In c s.
Proof.
  revert i. induction s as [|x s IH]; intros i Hi H; [auto|].
  cbn [Py.rfind_from] in H.
  destruct (Z.eqb_spec (Py.rfind_from c (i + 1) s) (-1)) as [E|E]; [|congruence].
  destruct (Ascii.eqb_spec x c) as [->|Hx]; [lia|].
  intros [->|Hin]; [congruence|]. eapply IH; [|exact E|exact Hin]. lia.
Qed.

Lemma rfind_from_after c s :
  forall i, (0 <= i)%Z ->
    ~ In c (skipn (Z.to_nat (Py.rfind_from c i s - i + 1)) s).
Proof.
  induction s as [|x s IH]; intros i Hi; [rewrite skipn_nil; auto|].
  cbn [Py.rfind_from].
  destruct (Z.eqb_spec (Py.rfind_from c (i + 1) s) (-1)) as [E|E].
  - pose proof (rfind_from_none c (i + 1) s ltac:(lia) E) as Hs.
    destruct (Ascii.eqb_spec x c) as [->|Hx].
    + replace (Z.to_nat (i - i + 1)) with 1 by lia. exact Hs.
    + replace (Z.to_nat (-1 - i + 1)) with 0 by lia.
      intros [->|Hin]; [congruence|auto].
  - destruct (rfind_from_range c (i + 1) s ltac:(lia)) as [?|R]; [congruence|].
    replace (Z.to_nat (Py.rfind_from c (i + 1) s - i + 1))
      with (S (Z.to_nat (Py.rfind_from c (i + 1) s - (i + 1) + 1))) by lia.
    apply IH. lia.
Qed.

Lemma basename_no_slash p : ~ In "/"%char (Py.basename p).
Proof.
  unfold Py.basename, Py.rfind.
  pose proof (rfind_from_after "/" p 0 ltac:(lia)) as H.
  rewrite Z.sub_0_r in H. exact H.
Qed.

Lemma startswith_app_assoc (o x y : pystr) : Py.startswith o ((o ++ x) ++ y) = true.
Proof. rewrite <- app_assoc. apply startswith_app. Qed.

(** Where [copy2] writes when it is given a path under [o]. *)
Lemma copy2_target_under (o x src : pystr) (d : bool) :
  Py.startswith o (if d then Py.path_join (o ++ x) (Py.basename src) else o ++ x) = true.
Proof.
  destruct d; [|apply startswith_app].
  rewrite path_join_prefix by apply no_slash_start, basename_no_slash.
  unfold dir_prefix. destruct (_ || _).
  - apply startswith_app_assoc.
  - rewrite <- !app_assoc. apply startswith_app.
Qed.

Lemma new_filename_no_slash filename mapping :
  is_audio filename = true -> ~ In "/"%char filename ->
  Py.startswith ["/"%char]
    (new_filename (fst (base_and_ext filename))
       (match_tags (fst (base_and_ext filename)) mapping)
       (snd (base_and_ext filename))) = false.
Proof.
  intros Ha Hs.
  destruct (RoundTrip.base_and_ext_chars filename Ha) as (Hbase & _ & Hext).
  rewrite Composer.new_filename_concat.
  destruct (fst (base_and_ext filename)) as [|c base] eqn:E.
  - destruct (match_tags [] mapping) as [|tag tags]; [|reflexivity].
    simpl. apply no_slash_start, Hext.
  - cbn [app Py.startswith].
    destruct (Ascii.eqb_spec "/" c) as [<-|_]; [|reflexivity].
    exfalso. apply Hs, Hbase. left. reflexivity.
Qed.

Lemma dir_prefix_shape d : dir_prefix d = [] \/ exists d', dir_prefix d = d' ++ ["/"%char].
Proof.
  unfold dir_prefix. destruct (Py.eqb d []) eqn:E; simpl.
  - apply eqb_eq in E. auto.
  - destruct (Py.endswith ["/"%char] d) eqn:F; [|eauto].
    unfold Py.endswith in F. apply startswith_spec in F as [t Ht].
    apply (f_equal (@rev _)) in Ht. rewrite rev_involutive, rev_app_distr in Ht.
    right. exists (rev t). exact Ht.
Qed.

(** A direct entry of the input directory is not under the output directory
    unless the input directory is. *)
Lemma source_not_under (input_directory output_directory f : pystr) :
  Py.startswith (dir_prefix output_directory) (dir_prefix input_directory) = false ->
  ~ In "/"%char f ->
  Py.startswith (dir_prefix output_directory) (dir_prefix input_directory ++ f) = false.
Proof.
  intros H Hf. apply not_true_iff_false. intros E.
  apply startswith_spec in E as [t Ht].
  apply app_eq_app in Ht as [l [[Hi Hl]|[Ho Hl]]].
  - rewrite Hi, startswith_app in H. discriminate.
  - destruct (dir_prefix_shape output_directory) as [E|[d' E]].
    + rewrite E in H. discriminate.
    + destruct l as [|c l].
      * rewrite app_nil_r in Ho. rewrite Ho in H.
        pose proof (startswith_app (dir_prefix input_directory) []) as X.
        rewrite app_nil_r in X. congruence.
      * apply Hf. rewrite Hl. apply in_or_app. left.
        assert (exists l', c :: l = l' ++ ["/"%char]) as [l' ->].
        { rewrite E in Ho. clear - Ho.
          destruct (exists_last (l := c :: l) ltac:(discriminate)) as (l' & y & Hy).
          rewrite Hy in *. rewrite app_assoc in Ho.
          apply app_inj_tail in Ho as [_ ->]. eauto. }
        apply in_or_app. right. left. reflexivity.
Qed.

(** The default output directory is apart from the input directory. *)
Lemma default_output_apart (input_directory : pystr) :
  Py.startswith (dir_prefix (input_directory ++ str "_processed"))
                (dir_prefix input_directory) = false.
Proof.
  apply not_true_iff_false. intros E. apply startswith_spec in E as [t Ht].
  apply (f_equal (@length _)) in Ht. revert Ht. unfold dir_prefix.
  repeat destruct (_ || _); rewrite ?length_app; simpl; lia.
Qed.

(** *** Steps of the file system *)

Lemma writes_app e1 e2 : writes (e1 ++ e2) = writes e1 ++ writes e2.
Proof. unfold writes. apply flat_map_app. Qed.

Lemma effect_refl w : effect [] w w.
Proof. unfold effect. rewrite app_nil_r. auto 10. Qed.

Lemma effect_trans e1 e2 w1 w2 w3 :
  effect e1 w1 w2 -> effect e2 w2 w3 -> effect (e1 ++ e2) w1 w3.
Proof.
  intros (A1 & A2 & A3 & A4 & A5 & A6) (B1 & B2 & B3 & B4 & B5 & B6).
  unfold effect. rewrite B1, A1, app_assoc. repeat split; try congruence.
  - intros l H. rewrite B5, A5; [reflexivity| |].
    + intros p Hp. apply H. rewrite writes_app. apply in_or_app. auto.
    + intros p Hp. rewrite A2. apply H. rewrite writes_app. apply in_or_app. auto.
  - intros l H. apply B6, A6, H.
Qed.

Lemma written_effect evs w w' : effect evs w w' -> written w w' = writes evs.
Proof.
  intros (E & _). unfold written. rewrite E, skipn_app, skipn_all, Nat.sub_diag.
  reflexivity.
Qed.

Section Steps.

Variable Q : pystr -> Prop.

Lemma step_refl w : step Q w w.
Proof. exists []. split; [apply effect_refl|constructor]. Qed.

Lemma step_trans w1 w2 w3 : step Q w1 w2 -> step Q w2 w3 -> step Q w1 w3.
Proof.
  intros (e1 & A & HA) (e2 & B & HB). exists (e1 ++ e2).
  split; [eapply effect_trans; eauto|]. rewrite writes_app. apply Forall_app. auto.
Qed.

Lemma step_listing w w' : step Q w w' -> listing w' = listing w.
Proof. intros (evs & (_ & _ & L & _) & _). exact L. Qed.

(** An event that is no write, with or without a new directory. *)
Lemma step_emit ev d w :
  writes [ev] = [] -> step Q w (emit ev (set_dirs d w)) /\ step Q w (emit ev w).
Proof.
  intros H. split; exists [ev]; rewrite H; (split; [|constructor]);
    unfold effect; rewrite H; cbn [emit set_dirs log place listing denied files];
    auto 10.
Qed.

Lemma step_write p b w :
  Q p -> step Q w (emit (EvWrite p) (set_files (<[place w p := b]> (files w)) w)).
Proof.
  intros Hp. exists [EvWrite p]. split; [|repeat constructor; exact Hp].
  unfold effect. cbn [emit set_files log place listing denied files writes flat_map app].
  repeat split.
  - intros l H. apply lookup_insert_ne. apply H. left. reflexivity.
  - intros l H. destruct (decide (place w p = l)) as [->|N].
    + rewrite lookup_insert_eq. eauto.
    + rewrite lookup_insert_ne by exact N. exact H.
Qed.

Lemma keeps_ret {A} (a : A) : keeps Q (ret a).
Proof. intros w. apply step_refl. Qed.

Lemma keeps_raise {A} e : keeps Q (@raise world A e).
Proof. intros w. apply step_refl. Qed.

Lemma keeps_gets {A} (f : world -> A) : keeps Q (gets f).
Proof. intros w. apply step_refl. Qed.

Lemma keeps_bind {A B} (m : M world A) (k : A -> M world B) :
  keeps Q m -> (forall a, keeps Q (k a)) -> keeps Q (bind m k).
Proof.
  intros Hm Hk w. unfold bind. specialize (Hm w).
  destruct (m w) as [[a|e] w1]; cbn [snd] in *; [|exact Hm].
  eapply step_trans; [exact Hm|apply Hk].
Qed.

Lemma keeps_try {A} (m : M world A) (h : exn -> M world A) :
  keeps Q m -> (forall e, keeps Q (h e)) -> keeps Q (try_except m h).
Proof.
  intros Hm Hh w. unfold try_except. specialize (Hm w).
  destruct (m w) as [[a|e] w1]; cbn [snd] in *; [exact Hm|].
  eapply step_trans; [exact Hm|apply Hh].
Qed.

Ltac keeps_step :=
  first [ apply keeps_ret | apply keeps_raise | apply keeps_gets
        | apply keeps_bind; [|intros ?] | apply keeps_try; [|intros ?] ].

Lemma keeps_read p : keeps Q (read_file p).
Proof.
  unfold read_file. do 2 (keeps_step; [keeps_step|]).
  destruct a as [b|]; [|keeps_step]. destruct a0; [keeps_step|].
  keeps_step; [|keeps_step]. intros w. apply (step_emit (EvRead p) (dirs w)). reflexivity.
Qed.

Lemma keeps_write p b : Q p -> keeps Q (write_file p b).
Proof.
  intros Hp. unfold write_file, parent_isdir, isdir.
  keeps_step; [keeps_step|]. keeps_step; [destruct (Py.eqb _ _); keeps_step|].
  keeps_step; [keeps_step|]. destruct (_ || _); [keeps_step|].
  intros w. apply step_write, Hp.
Qed.

Lemma keeps_copy2 src dst :
  Q dst -> Q (Py.path_join dst (Py.basename src)) -> keeps Q (copy2 src dst).
Proof.
  intros H1 H2. unfold copy2, samefile, exists_, isdir.
  keeps_step; [keeps_step|]. keeps_step.
  { repeat (keeps_step; [keeps_step|]). keeps_step. }
  destruct a0; [keeps_step|]. keeps_step; [apply keeps_read|].
  apply keeps_write. destruct a; assumption.
Qed.

Lemma keeps_mkdir_missing p : keeps Q (mkdir_missing p).
Proof.
  unfold mkdir_missing, isdir, isfile. keeps_step; [keeps_step|].
  destruct a; [keeps_step|]. do 2 (keeps_step; [keeps_step|]).
  destruct (_ || _); [keeps_step|].
  intros w. apply (step_emit (EvMkdir p)). reflexivity.
Qed.

Lemma keeps_makedirs p : keeps Q (makedirs p).
Proof.
  unfold makedirs. destruct (Py.eqb p []); [keeps_step|].
  induction (parents p ++ [p]) as [|q l IH]; cbn [mkdirs]; [keeps_step|].
  keeps_step; [apply keeps_mkdir_missing|exact IH].
Qed.

Section Batch.

Variables (input_directory output_directory : pystr).
Variable mapping : Dict.t (list pystr).

Lemma keeps_rename_file filename :
  targets_in Q input_directory output_directory mapping filename ->
  keeps Q (rename_file input_directory output_directory mapping filename).
Proof.
  intros [H1 H2]. unfold rename_file. unfold output_path in *.
  destruct (base_and_ext filename) as [base_name extension]. cbn [fst snd] in *.
  apply keeps_copy2; assumption.
Qed.

Lemma keeps_rename_loop entries :
  (forall f, In f entries -> is_audio f = true -> targets_in Q input_directory output_directory mapping f) ->
  forall counts,
    keeps Q (rename_loop input_directory output_directory mapping entries counts).
Proof.
  induction entries as [|filename entries IH]; intros H counts; cbn [rename_loop].
  - keeps_step.
  - assert (forall f, In f entries -> is_audio f = true -> targets_in Q input_directory output_directory mapping f) as H'
      by (intros f Hf; apply H; right; exact Hf).
    keeps_step; [unfold isfile; keeps_step|].
    destruct (is_audio filename) eqn:Ha;
      [|rewrite orb_true_r; apply IH, H'].
    destruct (negb a || negb true); [apply IH, H'|].
    keeps_step; [|apply IH, H'].
    keeps_step; [|keeps_step]. keeps_step; [|keeps_step].
    apply keeps_rename_file, H; [left; reflexivity|exact Ha].
Qed.

Lemma rename_files_step w :
  (forall entries f, listing w input_directory = Some entries -> In f entries ->
                     is_audio f = true -> targets_in Q input_directory output_directory mapping f) ->
  step Q w (snd (rename_files input_directory output_directory mapping w)).
Proof.
  intros H. unfold rename_files, bind.
  pose proof (keeps_makedirs output_directory w) as Hm.
  destruct (makedirs output_directory w) as [[[]|e] w1]; cbn [snd] in *; [|exact Hm].
  eapply step_trans; [exact Hm|]. cbv beta iota delta [listdir bind gets].
  rewrite (step_listing _ _ Hm).
  destruct (listing w input_directory) as [entries|] eqn:L; [|apply step_refl].
  apply keeps_rename_loop. intros f. apply H. reflexivity.
Qed.

End Batch.

Section Run.

Variable json_load : bytes -> parsed.

Lemma keeps_load tags_file : keeps Q (load_name_tags_mapping json_load tags_file).
Proof.
  unfold load_name_tags_mapping. keeps_step; [|keeps_step].
  keeps_step; [apply keeps_read|]. destruct (json_load a); keeps_step.
Qed.

Lemma main_step script_dir a w :
  (forall mapping entries f,
      listing w (arg_input_directory a) = Some entries -> In f entries ->
      is_audio f = true ->
      targets_in Q (arg_input_directory a) (output_directory_of a) mapping f) ->
  step Q w (snd (main json_load script_dir a w)).
Proof.
  intros H. unfold main, bind at 1 2, exists_, gets. cbn [fst snd].
  destruct (negb _); [apply step_refl|].
  destruct (negb _); [apply step_refl|].
  unfold bind at 1.
  pose proof (keeps_load (tags_file_of script_dir a) w) as Hl.
  destruct (load_name_tags_mapping json_load (tags_file_of script_dir a) w)
    as [[m|e] w1]; cbn [snd] in *; [|exact Hl].
  destruct m as [|entry m]; [exact Hl|].
  eapply step_trans; [exact Hl|]. unfold bind.
  pose proof (rename_files_step (arg_input_directory a) (output_directory_of a)
                (entry :: m) w1) as Hr.
  rewrite (step_listing _ _ Hl) in Hr. specialize (Hr (H (entry :: m))).
  destruct (rename_files _ _ _ w1) as [[c|e] w2]; exact Hr.
Qed.

End Run.

End Steps.

(** *** What a run writes *)

Lemma targets_under input_directory output_directory mapping f :
  is_audio f = true -> ~ In "/"%char f ->
  targets_in (fun p => Py.startswith (dir_prefix output_directory) p = true)
    input_directory output_directory mapping f.
Proof.
  intros Ha Hs. unfold targets_in, output_path.
  rewrite path_join_prefix by (apply new_filename_no_slash; assumption).
  split; [apply startswith_app|].
  apply (copy2_target_under (dir_prefix output_directory) _ _ true).
Qed.

Section Run.

Variable json_load : bytes -> parsed.

(** Loading the mapping never raises, changes nothing but the log, and gives
    a non-empty mapping only from a readable file of well-formed items. *)
Lemma load_result tags_file w :
  exists m w',
    load_name_tags_mapping json_load tags_file w = (Return m, w')
    /\ (w' = w \/ w' = emit (EvRead tags_file) w)
    /\ (m <> [] ->
        exists b data, files w !! place w tags_file = Some b /\ denied w tags_file = false
                       /\ json_load b = Items data /\ m = tag_index data).
Proof.
  unfold load_name_tags_mapping, read_file.
  cbv beta iota delta [try_except bind gets modify raise ret].
  destruct (files w !! place w tags_file) as [b|];
    [|exists [], w; split; [reflexivity|tauto]].
  destruct (denied w tags_file); [exists [], w; split; [reflexivity|tauto]|].
  destruct (json_load b) as [| |data] eqn:E.
  - exists [], (emit (EvRead tags_file) w). split; [reflexivity|tauto].
  - exists [], (emit (EvRead tags_file) w). split; [reflexivity|tauto].
  - exists (tag_index data), (emit (EvRead tags_file) w). split; [reflexivity|].
    split; [tauto|]. intros _. exists b, data. auto.
Qed.

End Run.

(** C8, as the code has it.  Which file a path names is for the file system
    to say: "d/a.mp3" and "./d/a.mp3" are one file.  A run removes no file,
    and a file keeps its bytes unless a path the run wrote to names it.  When
    the entries of the input directory are names without a slash, every path
    written starts with the output directory and a separator; so, when the
    output directory, as it is spelled, is not the input directory and does
    not hold it, a file of the input directory keeps its bytes as long as no
    path written is another name of that file.  The default output directory,
    the input path followed by "_processed", is spelled apart from the input
    directory. *)
Theorem copies_keep_source
    (json_load : bytes -> parsed) (script_dir : pystr) (a : args) (w : world) :
  (forall l,
      (forall p, In p (written w (snd (main json_load script_dir a w))) -> place w p <> l) ->
      files (snd (main json_load script_dir a w)) !! l = files w !! l)
  /\ (forall l, is_Some (files w !! l) ->
                is_Some (files (snd (main json_load script_dir a w)) !! l))
  /\ (entry_names w (arg_input_directory a) ->
      (forall p, In p (written w (snd (main json_load script_dir a w))) ->
                 Py.startswith (dir_prefix (output_directory_of a)) p = true)
      /\ (Py.startswith (dir_prefix (output_directory_of a))
                        (dir_prefix (arg_input_directory a)) = false ->
          forall f, ~ In "/"%char f ->
            (forall p, In p (written w (snd (main json_load script_dir a w))) ->
                       place w p = place w (Py.path_join (arg_input_directory a) f) ->
                       p = Py.path_join (arg_input_directory a) f) ->
            files (snd (main json_load script_dir a w))
              !! place w (Py.path_join (arg_input_directory a) f)
            = files w !! place w (Py.path_join (arg_input_directory a) f)))
  /\ (arg_output_directory a = None ->
      Py.startswith (dir_prefix (output_directory_of a))
                    (dir_prefix (arg_input_directory a)) = false).
Proof.
  assert (forall l,
             (forall p, In p (written w (snd (main json_load script_dir a w))) ->
                        place w p <> l) ->
             files (snd (main json_load script_dir a w)) !! l = files w !! l) as Hframe.
  { destruct (main_step (fun _ => True) json_load script_dir a w) as (evs & He & _).
    { intros; split; exact I. }
    rewrite (written_effect _ _ _ He). apply He. }
  split; [exact Hframe|]. split; [|split].
  - destruct (main_step (fun _ => True) json_load script_dir a w) as (evs & He & _).
    { intros; split; exact I. }
    apply He.
  - intros Hnames.
    assert (forall p, In p (written w (snd (main json_load script_dir a w))) ->
                      Py.startswith (dir_prefix (output_directory_of a)) p = true) as Hunder.
    { destruct (main_step
                  (fun p => Py.startswith (dir_prefix (output_directory_of a)) p = true)
                  json_load script_dir a w) as (evs & He & Hq).
      { intros mapping entries f L Hf Ha. apply targets_under; [exact Ha|].
        pose proof (Hnames entries L) as Hn. rewrite List.Forall_forall in Hn.
        apply Hn, Hf. }
      rewrite (written_effect _ _ _ He). apply List.Forall_forall, Hq. }
    split; [exact Hunder|].
    intros Hapart f Hf Halias. apply Hframe. intros p Hp E.
    pose proof (Halias p Hp E) as ->. pose proof (Hunder _ Hp) as Hu.
    rewrite path_join_prefix in Hu by apply no_slash_start, Hf.
    rewrite source_not_under in Hu by assumption. discriminate.
  - intros Hdefault. unfold output_directory_of. rewrite Hdefault. apply default_output_apart.
Qed.

Lemma music_entry_names : entry_names music (str "music").
Proof.
  intros entries H. vm_compute in H. injection H as <-.
  repeat constructor; simpl; intuition discriminate.
Qed.

(** The run on "music": one copy under "music_processed", and the source
    file with the bytes it had. *)
Lemma copies_keep_source_music :
  fst (main music_tags (str "/opt/scripts") music_args music) = Return (Some (1, 0))
  /\ written music (snd (main music_tags (str "/opt/scripts") music_args music))
     = [str "music_processed/Intro [Dark] [Cinematic].mp3"]
  /\ files (snd (main music_tags (str "/opt/scripts") music_args music))
       !! str "music_processed/Intro [Dark] [Cinematic].mp3" = Some [Byte.x01; Byte.x02]
  /\ files (snd (main music_tags (str "/opt/scripts") music_args music))
       !! place music (Py.path_join (str "music") (str "mateo_19182 - Intro [128 bpm].mp3"))
     = files music
       !! place music (Py.path_join (str "music") (str "mateo_19182 - Intro [128 bpm].mp3")).
Proof.
  split; [vm_compute; reflexivity|]. split; [vm_compute; reflexivity|].
  split; [vm_compute; reflexivity|].
  destruct (copies_keep_source music_tags (str "/opt/scripts") music_args music)
    as (_ & _ & H & _).
  destruct (H music_entry_names) as [_ Hkeep].
  apply (Hkeep eq_refl (str "mateo_19182 - Intro [128 bpm].mp3")).
  - simpl. intuition discriminate.
  - intros p Hp E. vm_compute in Hp. destruct Hp as [<-|[]].
    vm_compute in E. discriminate E.
Defined.

(** With the input directory itself as output directory, spelled the same
    way or as "./d", and with an input directory inside the output directory
    and a tag that holds a slash, a file of the input directory has other
    bytes after the run. *)
Lemma source_overwritten :
  files same_directory !! str "d/a.mp3" = Some [Byte.x02]
  /\ fst (main music_tags (str "/opt/scripts") same_directory_args same_directory)
     = Return (Some (1, 1))
  /\ files (snd (main music_tags (str "/opt/scripts") same_directory_args same_directory))
       !! str "d/a.mp3" = Some [Byte.x01]
  /\ Py.startswith (dir_prefix (output_directory_of dot_directory_args))
                   (dir_prefix (arg_input_directory dot_directory_args)) = false
  /\ fst (main music_tags (str "/opt/scripts") dot_directory_args same_directory)
     = Return (Some (1, 1))
  /\ written same_directory
       (snd (main music_tags (str "/opt/scripts") dot_directory_args same_directory))
     = [str "./d/a.mp3"]
  /\ files (snd (main music_tags (str "/opt/scripts") dot_directory_args same_directory))
       !! str "d/a.mp3" = Some [Byte.x01]
  /\ files inner_directory !! str "d/s [a/b].mp3" = Some [Byte.x02]
  /\ files (snd (main slash_tags (str "/opt/scripts") inner_directory_args inner_directory))
       !! str "d/s [a/b].mp3" = Some [Byte.x01].
Proof. repeat split; vm_compute; reflexivity. Qed.

(** C6. When the mapping file is missing, cannot be read or is not JSON,
    [main] returns early: no file and no directory is created or changed, and
    nothing is read but, at most, the mapping file itself. *)
Theorem bad_mapping_aborts
    (json_load : bytes -> parsed) (script_dir : pystr) (a : args) (w : world) :
  files w !! place w (tags_file_of script_dir a) = None
  \/ denied w (tags_file_of script_dir a) = true
  \/ (exists b, files w !! place w (tags_file_of script_dir a) = Some b
                /\ json_load b = Malformed) ->
  exists w',
    main json_load script_dir a w = (Return None, w')
    /\ files w' = files w /\ dirs w' = dirs w
    /\ (log w' = log w \/ log w' = log w ++ [EvRead (tags_file_of script_dir a)]).
Proof.
  intros Hbad. unfold main, bind at 1 2, exists_, gets.
  destruct (negb _); [exists w; unfold ret; auto|].
  destruct (negb _); [exists w; unfold ret; auto|].
  unfold bind.
  destruct (load_result json_load (tags_file_of script_dir a) w) as (m & w1 & -> & Hw1 & Hm).
  assert (m = []) as ->.
  { destruct m as [|entry m]; [reflexivity|]. exfalso.
    destruct (Hm ltac:(discriminate)) as (b & data & Hb & Hd & Hj & _).
    destruct Hbad as [H|[H|(b' & H & H')]]; congruence. }
  exists w1. split; [reflexivity|].
  destruct Hw1 as [-> | ->]; simpl; auto.
Qed.

(** The mapping file is there but holds no JSON. *)
Lemma bad_mapping_aborts_music :
  main (fun _ => Malformed) (str "/opt/scripts") music_args music
  = (Return None, emit (EvRead (str "tags.json")) music).
Proof.
  destruct (bad_mapping_aborts (fun _ => Malformed) (str "/opt/scripts") music_args music)
    as (w' & E & _).
  - right. right. exists []. split; reflexivity.
  - reflexivity.
Defined.

End Copies.

(** ** The tag index *)

Module Index.
Import Rename MatcherSpec IndexSpec PyFacts Matcher.

Lemma isspace_lower c : Py.isspace (Py.lower_char c) = Py.isspace c.
Proof. destruct c as [[] [] [] [] [] [] [] []]; reflexivity. Qed.




Lemma drop_while_lower s :
  Py.drop_while Py.isspace (Py.lower s) = Py.lower (Py.drop_while Py.isspace s).
Proof.
  induction s as [|c s IH]; simpl; [reflexivity|].
  rewrite isspace_lower. destruct (Py.isspace c); [exact IH|reflexivity].
Qed.

Lemma lower_rev s : Py.lower (rev s) = rev (Py.lower s).
Proof. apply map_rev. Qed.

Lemma strip_lower s : Py.strip (Py.lower s) = Py.lower (Py.strip s).
Proof.
  unfold Py.strip, Py.rstrip, Py.lstrip.
  rewrite drop_while_lower, <- lower_rev, drop_while_lower, lower_rev. reflexivity.
Qed.










End Index.

(** ** Runs of the renamer *)

Module Runs.
Import Exc Rename MatcherSpec RenameSpec IndexSpec PyFacts Copies.



Section Loop.

Variables (input_directory output_directory : pystr).
Variable mapping : Dict.t (list pystr).


End Loop.



Section Aborts.

Variable json_load : bytes -> parsed.


End Aborts.

End Runs.

(** ** From the renamer's names to the upload client's filter *)

Module Pipeline.
Import Re Lang Names ReFacts SubFacts PyFacts PathFacts AudioNames Rename Normalizer
  Composer.

Local Arguments sub_from : simpl never.











End Pipeline.

(** ** The requests of the upload client *)

Module Requests.
Import Re Exc Upload UploadSpec LoginSpec SessionSpec PyFacts ReFacts RoundTrip Batch.









Section Tokens.

Variables (api_base_url email password : pystr).





End Tokens.



End Requests.

(** ** The command line of the upload client *)

Module Sessions.
Import Exc Upload UploadSpec LoginSpec Session SessionSpec PyFacts Batch Requests.

(** *** The cookie domain *)




(** *** Requests without a file *)

Lemma same_service_refl (w : Upload.world) : same_service w w.
Proof. repeat split. Qed.











Section Login.

Variables (api_base_url email password : pystr).





End Login.

(** *** The two parts of [main] *)




























End Sessions.

(** ** The seams of the tag export *)

Module Seams.
Import Re Lang Names ReFacts PyFacts Offtop OfftopSpec.

Local Arguments Offtop.sub_from : simpl never.




























End Seams.
